(** * CrossSeedAutoDL: the match-and-dedup engine, embedded and verified

    A shallow embedding of [CrossSeedAutoDL.py].  Python values are modelled
    as follows:
    - [str] as [string], a character standing for the code point of its
      number (the code points below 256); the regular expressions of the
      script run on the character list of the string, through a small
      backtracking matcher that follows the search order of Python's [re]
      module;
    - [int] as [Z];
    - the history document ([SearchHistory.json]) as a record with the list
      [basenames_searched] and a [gmap] from tracker id to the list of
      url paths ([download_history]);
    - exceptions as an error type, and every function that can raise as a
      function into [result];
    - the outside world (aggregator responses, tracker downloads, the files
      of the save directory) as explicit oracles and state; the clock is
      left out, so that [time.sleep] either returns or raises. *)

From Stdlib Require Import ZArith Lia List Ascii Bool.
From Stdlib Require Import DecimalNat DecimalString.
From stdpp Require Import gmap strings list.

Import ListNotations.

(** ** A backtracking matcher for the fragment of [re] the script uses *)

Module Re.

(** The line feed, the only character [.] refuses (no DOTALL flag). *)
Definition LF : ascii := Ascii.ascii_of_nat 10.

Inductive charclass :=
| CAny                 (* [.]     *)
| CNot (c : ascii).    (* [[^c]]  *)

Definition in_class (cl : charclass) (c : ascii) : bool :=
  match cl with
  | CAny => negb (Ascii.eqb c LF)
  | CNot x => negb (Ascii.eqb c x)
  end.

Inductive regex :=
| Bol                                   (* [^] without MULTILINE *)
| Eol                                   (* [$] without MULTILINE *)
| Lit (c : ascii)                       (* one literal character *)
| Cls (cl : charclass)                  (* one character of a class *)
| Seq (r1 r2 : regex)
| Opt (r : regex)                       (* greedy [r?] *)
| Star (greedy : bool) (cl : charclass) (* [cl*] or [cl*?] *)
| Group (i : nat) (r : regex).          (* capturing group number [i] *)

(** [cl+] is [cl cl*], [cl+?] is [cl cl*?]. *)
Definition Plus (greedy : bool) (cl : charclass) : regex :=
  Seq (Cls cl) (Star greedy cl).

Fixpoint Str (l : list ascii) (r : regex) : regex :=
  match l with
  | [] => r
  | c :: l' => Seq (Lit c) (Str l' r)
  end.

Definition captures := list (nat * list ascii).

Fixpoint group (m : captures) (i : nat) : option (list ascii) :=
  match m with
  | [] => None
  | (j, v) :: m' => if Nat.eqb j i then Some v else group m' i
  end.

(** A continuation receives the position reached, the rest of the subject
    and the groups closed so far. *)
Definition cont := nat -> list ascii -> captures -> option captures.

Fixpoint star (greedy : bool) (cl : charclass) (pos : nat) (s : list ascii)
    (caps : captures) (k : cont) {struct s} : option captures :=
  match s with
  | c :: s' =>
      if in_class cl c then
        if greedy then
          match star greedy cl (S pos) s' caps k with
          | Some m => Some m
          | None => k pos s caps
          end
        else
          match k pos s caps with
          | Some m => Some m
          | None => star greedy cl (S pos) s' caps k
          end
      else k pos s caps
  | [] => k pos s caps
  end.

Fixpoint run (r : regex) (pos : nat) (s : list ascii) (caps : captures)
    (k : cont) {struct r} : option captures :=
  match r with
  | Bol => if Nat.eqb pos 0 then k pos s caps else None
  | Eol =>
      match s with
      | [] => k pos s caps
      | [c] => if Ascii.eqb c LF then k pos s caps else None
      | _ => None
      end
  | Lit c =>
      match s with
      | x :: s' => if Ascii.eqb x c then k (S pos) s' caps else None
      | [] => None
      end
  | Cls cl =>
      match s with
      | x :: s' => if in_class cl x then k (S pos) s' caps else None
      | [] => None
      end
  | Seq r1 r2 =>
      run r1 pos s caps (fun pos' s' caps' => run r2 pos' s' caps' k)
  | Opt r1 =>
      match run r1 pos s caps k with
      | Some m => Some m
      | None => k pos s caps
      end
  | Star g cl => star g cl pos s caps k
  | Group i r1 =>
      run r1 pos s caps
        (fun pos' s' caps' => k pos' s' ((i, firstn (pos' - pos) s) :: caps'))
  end.

Definition accept : cont := fun _ _ caps => Some caps.

(** [re.search]: the leftmost start position at which the pattern
    matches. *)
Fixpoint search_from (r : regex) (pos : nat) (s : list ascii)
    : option captures :=
  match run r pos s [] accept with
  | Some m => Some m
  | None =>
      match s with
      | [] => None
      | _ :: s' => search_from r (S pos) s'
      end
  end.

Definition search (r : regex) (s : string) : option captures :=
  search_from r 0 (String.list_ascii_of_string s).

Definition group_str (m : captures) (i : nat) : option string :=
  option_map String.string_of_list_ascii (group m i).

(** All the characters of [l] are in the class. *)
Definition all_in (cl : charclass) (l : list ascii) : Prop :=
  Forall (λ c, in_class cl c = true) l.

(** The pattern closes group [i] on every path to its end. *)
Fixpoint sets_group (i : nat) (r : regex) : bool :=
  match r with
  | Seq r1 r2 => sets_group i r1 || sets_group i r2
  | Group j r1 => Nat.eqb j i || sets_group i r1
  | _ => false
  end.

End Re.

(** ** Exceptions and results *)

Inductive exn :=
| KeyError (key : string)
| AttributeError          (* [.group] on the [None] of a failed [re.search] *)
| TypeError
| ValueError              (* [time.sleep] of a negative length *)
| AssertionError
| SystemExit (code : Z)
| RequestError            (* any [requests] exception the script does not catch *)
| Diverges.               (* a loop that outran the fuel of its model *)

Inductive result (A : Type) :=
| Ok (a : A)
| Raise (e : exn).
Arguments Ok {A} a.
Arguments Raise {A} e.

#[global] Instance result_ret : MRet result := fun A a => Ok a.
#[global] Instance result_bind : MBind result := fun A B f x =>
  match x with
  | Ok a => f a
  | Raise e => Raise e
  end.

(** ** HistoryManager.url_path_re and Searcher's release_name_re *)

Definition chars (s : string) : list ascii := String.list_ascii_of_string s.

(** [r'^https?://[^/]+(.+)'] *)
Definition url_path_re : Re.regex :=
  Re.Seq Re.Bol
    (Re.Str (chars "http")
      (Re.Seq (Re.Opt (Re.Lit "s"%char))
        (Re.Str (chars "://")
          (Re.Seq (Re.Plus true (Re.CNot "/"%char))
                  (Re.Group 1 (Re.Plus true Re.CAny)))))).

(** [r'^(.+?)( \[.*/.*\])?$'] (the IGNORECASE flag of the call changes
    nothing: the pattern has no letter). *)
Definition release_name_re : Re.regex :=
  Re.Seq Re.Bol
    (Re.Seq (Re.Group 1 (Re.Plus false Re.CAny))
      (Re.Seq
        (Re.Opt (Re.Group 2
          (Re.Str (chars " [")
            (Re.Seq (Re.Star true Re.CAny)
              (Re.Seq (Re.Lit "/"%char)
                (Re.Seq (Re.Star true Re.CAny) (Re.Lit "]"%char)))))))
        Re.Eol)).

(** [re.search(url_path_re, details).group(1)]; a match always has group 1
    ([url_path_not_TypeError]). *)
Definition url_path (details : string) : result string :=
  match Re.search url_path_re details with
  | Some m =>
      match Re.group_str m 1 with
      | Some p => Ok p
      | None => Raise TypeError
      end
  | None => Raise AttributeError
  end.

(** [Searcher._reformat_release_name]; a match always has group 1
    ([release_name_re_group1]). *)
Definition _reformat_release_name (release_name : string) : string :=
  match Re.search release_name_re release_name with
  | Some m =>
      match Re.group_str m 1 with
      | Some g => g
      | None => release_name
      end
  | None => release_name
  end.

(** ** The data model *)

(** The command line, [ARGS]. *)
Record Args := {
  parse_dir : bool;
  delay : Z;
  input_path : string;
  save_path : string;
  jackett_url : string;
  api_key : string;
  trackers : option string;
  ignore_history : bool;
  strict_size : bool
}.

(** What [guessit] returns; [None] is an absent key. *)
Record guessed := {
  title : option string;
  year : option Z;
  gtype : option string;      (* key ['type'] *)
  season : option Z;
  episode : option Z
}.

(** The dict of [ReleaseData.get_release_data]. *)
Record release_data := {
  main_path : string;
  basename : string;
  size : option Z;            (* [None] when a file size is unknown *)
  guessed_data : guessed
}.

(** One entry of the aggregator's ['Results'], with the keys of
    [Searcher.keys_from_result].  The entries are taken as the aggregator
    sends them: every key is present, the title is a string and the size a
    number; what the script raises on a document of another shape is
    outside the embedding. *)
Record candidate := {
  Tracker : string;
  TrackerId : string;
  CategoryDesc : string;
  Title : string;
  Link : option string;
  Details : string;
  Category : list Z;
  Size : Z;
  Imdb : option Z
}.

(** The history document: [{'basenames_searched': [...],
    'download_history': {tracker_id: [...]}}]. *)
Record history := {
  basenames_searched : list string;
  download_history : gmap string (list string)
}.

Definition empty_history : history :=
  {| basenames_searched := []; download_history := ∅ |}.

(** The body of an aggregator response. *)
Inductive body :=
| NotJson
| Json (Indexers : list string) (Results : list candidate).

(** A [requests.Response]; its truth value is [ok] (status below 400). *)
Record response := { ok : bool; resp_body : body }.

(** What one [requests.get] does. *)
Inductive attempt :=
| ReadTimeout
| ConnectionError
| OtherRequestException
| Response (r : response).

Inductive pyval :=
| PStr (s : string)
| PInt (z : Z).

(** The search url before [urlencode] renders it: the base and the
    parameters in insertion order. *)
Record search_url := { base_url : string; params : list (string * pyval) }.

(** [requests.get(search_url, local_release_data)] passes the release dict
    as the second argument; [requests.get(link, stream=True)] fetches a
    torrent. *)
Inductive request :=
| SearchReq (u : search_url) (d : release_data)
| DownloadReq (link : string).

(** The state a run threads: the history object in memory, the requests
    issued so far, the regular files of the file system and the content of
    [SearchHistory.json] ([None]: absent or unreadable). *)
Record state := {
  search_history : history;
  requests : list request;
  files : list string;
  history_file : option history
}.

Definition set_history (h : history) (st : state) : state :=
  {| search_history := h; requests := requests st;
     files := files st; history_file := history_file st |}.

Definition M (A : Type) : Type := state -> result A * state.

Definition ret {A} (a : A) : M A := fun st => (Ok a, st).
Definition raise {A} (e : exn) : M A := fun st => (Raise e, st).
Definition bindM {A B} (c : M A) (f : A -> M B) : M B :=
  fun st =>
    match c st with
    | (Ok a, st') => f a st'
    | (Raise e, st') => (Raise e, st')
    end.
Definition lift {A} (r : result A) : M A := fun st => (r, st).

Notation "'let*' x ':=' c 'in' k" := (bindM c (fun x => k))
  (at level 10, x name, c at level 100, k at level 200).
Notation "c '>>' k" := (bindM c (fun _ => k))
  (at level 61, left associativity).

(** ** HistoryManager *)

Module HistoryManager.

Fixpoint is_file_previously_searched_loop (basename : string)
    (names : list string) : bool :=
  match names with
  | [] => false
  | name :: names' =>
      if String.eqb basename name then true
      else is_file_previously_searched_loop basename names'
  end.

Definition is_file_previously_searched (basename : string)
    (h : history) : bool :=
  is_file_previously_searched_loop basename (basenames_searched h).

Fixpoint grabbed_loop (url_path : string) (paths : list string) : bool :=
  match paths with
  | [] => false
  | p :: paths' =>
      if String.eqb p url_path then true else grabbed_loop url_path paths'
  end.

Definition is_torrent_previously_grabbed (r : candidate) (h : history)
    : result bool :=
  p ← url_path (Details r);
  match download_history h !! TrackerId r with
  | None => mret false
  | Some paths => mret (grabbed_loop p paths)
  end.

(** [x in l] on a list of strings. *)
Definition str_in (x : string) (l : list string) : bool :=
  existsb (String.eqb x) l.

Definition append_to_download_history (details_url tracker_id : string)
    (h : history) : result history :=
  p ← url_path details_url;
  let dh :=
    match download_history h !! tracker_id with
    | None => <[tracker_id := []]> (download_history h)
    | Some _ => download_history h
    end in
  let paths := default [] (dh !! tracker_id) in
  mret {| basenames_searched := basenames_searched h;
          download_history :=
            if str_in p paths then dh
            else <[tracker_id := paths ++ [p]]> dh |}.

End HistoryManager.

(** ** Primitive effects on the state *)

Section Effects.

(** The network: what a [requests.get] yields, given the requests issued
    before it. *)
Variable http : list request -> request -> attempt.

Definition requests_get (req : request) : M attempt :=
  fun st =>
    (Ok (http (requests st) req),
     {| search_history := search_history st;
        requests := requests st ++ [req];
        files := files st;
        history_file := history_file st |}).

Definition get_history : M history :=
  fun st => (Ok (search_history st), st).

Definition put_history (h : history) : M unit :=
  fun st => (Ok tt, set_history h st).

(** [time.sleep(secs)]: it returns once the time has passed, and raises
    [ValueError] for a negative length. The clock is no part of the
    state. *)
Definition time_sleep (secs : Z) : M unit :=
  if (secs <? 0)%Z then raise ValueError else ret tt.

(** [os.path.isfile] *)
Definition isfile (fs : list string) (path : string) : bool :=
  existsb (String.eqb path) fs.

(** [open(file_path, 'wb')] followed by the copy of the payload. *)
Definition write_file (path : string) : M unit :=
  fun st =>
    (Ok tt,
     {| search_history := search_history st;
        requests := requests st;
        files := if isfile (files st) path then files st
                 else files st ++ [path];
        history_file := history_file st |}).

End Effects.

(** ** Searcher *)

Module Searcher.

Definition MiB : Z := (1024 ^ 2)%Z.

Definition size_differences_strictness (strict : bool) : Z :=
  if strict then 0%Z else (5 * MiB)%Z.

(** [category_types = {'movie': 2000, 'episode': 5000}]; [None] is a
    missing key. *)
Definition category_types (ty : string) : option Z :=
  if String.eqb ty "movie" then Some 2000%Z
  else if String.eqb ty "episode" then Some 5000%Z
  else None.

(** [str.strip('/')] *)
Fixpoint lstrip_slash (l : list ascii) : list ascii :=
  match l with
  | c :: l' => if Ascii.eqb c "/" then lstrip_slash l' else l
  | [] => []
  end.

Definition strip_slash (s : string) : string :=
  String.string_of_list_ascii
    (rev (lstrip_slash (rev (lstrip_slash (chars s))))).

Section WithArgs.

Variable ARGS : Args.
Variable http : list request -> request -> attempt.

Definition max_size_difference : Z :=
  size_differences_strictness (strict_size ARGS).

Definition _is_skip_worthy (d : release_data) (h : history) : bool :=
  if negb (ignore_history ARGS)
     && (HistoryManager.is_file_previously_searched (basename d) h
         && parse_dir ARGS)
  then true
  else
    match size d with
    | None => true
    | Some _ => false
    end.

(** The optional parameters that are not [None], in dict order. *)
Definition optional_params (category : Z) (g : guessed)
    : list (string * pyval) :=
  match trackers ARGS with
  | Some t => [("Tracker[]", PStr t)]
  | None => []
  end
  ++ [("Category[]", PInt category)]
  ++ match season g with
     | Some n => [("season", PInt n)]
     | None => []
     end
  ++ match episode g with
     | Some n => [("episode", PInt n)]
     | None => []
     end.

Definition _get_full_search_url (search_query : string)
    (d : release_data) : result search_url :=
  let base := strip_slash (jackett_url ARGS)
              +:+ "/api/v2.0/indexers/all/results?" in
  let main_params :=
    [("apikey", PStr (api_key ARGS)); ("Query", PStr search_query)] in
  match gtype (guessed_data d) with
  | None => Raise (KeyError "type")
  | Some ty =>
      match category_types ty with
      | None => Raise (KeyError ty)
      | Some category =>
          Ok {| base_url := base;
                params := main_params
                          ++ optional_params category (guessed_data d) |}
      end
  end.

Fixpoint _get_matching_results_loop (search_results : list candidate)
    (d : release_data) (matching_results : list candidate)
    : result (list candidate) :=
  match search_results with
  | [] => Ok matching_results
  | r :: rest =>
      let max := max_size_difference in
      let max := if String.eqb (Tracker r) "Blutopia"
                 then (max * 2)%Z else max in
      match size d with
      | None => Raise TypeError
      | Some s =>
          if (Z.abs (Size r - s) <=? max)%Z
          then _get_matching_results_loop rest d (matching_results ++ [r])
          else _get_matching_results_loop rest d matching_results
      end
  end.

Definition _get_matching_results (search_results : list candidate)
    (d : release_data) : result (list candidate) :=
  _get_matching_results_loop search_results d [].

Definition _trim_result (r : candidate) : candidate :=
  {| Tracker := Tracker r; TrackerId := TrackerId r;
     CategoryDesc := CategoryDesc r;
     Title := _reformat_release_name (Title r);
     Link := Link r; Details := Details r; Category := Category r;
     Size := Size r; Imdb := Imdb r |}.

Definition _trim_results (search_results : list candidate)
    : list candidate :=
  map _trim_result search_results.

(** The query of lines 108-110: the title, then a space and [str(year)]
    when the year is present. *)
Definition search_query_of (d : release_data) : result string :=
  match title (guessed_data d) with
  | None => Raise (KeyError "title")
  | Some t =>
      match year (guessed_data d) with
      | Some y =>
          Ok (t +:+ " " +:+ NilEmpty.string_of_int (Z.to_int y))
      | None => Ok t
      end
  end.

(** The loop [for n in range(2)] around [requests.get]: both handlers
    sleep for [ARGS.delay] when [n == 0], and what [time.sleep] raises
    inside a handler leaves the loop. *)
Fixpoint fetch_loop (ns : list nat) (req : request)
    : M (option response) :=
  match ns with
  | [] => ret None
  | n :: ns' =>
      let* a := requests_get http req in
      match a with
      | Response r => ret (Some r)
      | ReadTimeout | ConnectionError =>
          (if Nat.eqb n 0 then time_sleep (delay ARGS) else ret tt) >>
          fetch_loop ns' req
      | OtherRequestException => raise RequestError
      end
  end.

Definition fetch (u : search_url) (d : release_data)
    : M (option response) :=
  fetch_loop (seq 0 2) (SearchReq u d).

Definition record_basename (d : release_data) : M unit :=
  let* h := get_history in
  if HistoryManager.str_in (basename d) (basenames_searched h)
  then ret tt
  else put_history
         {| basenames_searched := basenames_searched h ++ [basename d];
            download_history := download_history h |}.

Definition search (d : release_data) : M (list candidate) :=
  let* h := get_history in
  if _is_skip_worthy d h then ret [] else
  let* search_query := lift (search_query_of d) in
  let* search_url := lift (_get_full_search_url search_query d) in
  let* resp := fetch search_url d in
  match resp with
  | None => ret []
  | Some r =>
      if negb (ok r) then ret [] else
      match resp_body r with
      | NotJson => ret []
      | Json indexers results =>
          match indexers with
          | [] => raise (SystemExit 1)
          | _ :: _ =>
              record_basename d >>
              lift (_get_matching_results (_trim_results results) d)
          end
      end
  end.

End WithArgs.

End Searcher.

(** ** Path helpers of the platform ([posixpath]) and [str(n)] *)

(** [str.rfind] of one character: the last index, or [-1]. *)
Fixpoint rfind_from (c : ascii) (l : list ascii) (i : Z) (found : Z) : Z :=
  match l with
  | [] => found
  | x :: l' => rfind_from c l' (i + 1)%Z (if Ascii.eqb x c then i else found)
  end.

Definition rfind (c : ascii) (l : list ascii) : Z := rfind_from c l 0%Z (-1)%Z.

(** [os.path.splitext]: the extension starts at the last dot of the last
    component, unless only dots precede it there. *)
Definition splitext (p : string) : string * string :=
  let l := chars p in
  let sepIndex := rfind "/" l in
  let dotIndex := rfind "." l in
  if (sepIndex <? dotIndex)%Z then
    let filenameIndex := Z.to_nat (sepIndex + 1) in
    let d := Z.to_nat dotIndex in
    if existsb (fun c => negb (Ascii.eqb c "."))
         (firstn (d - filenameIndex) (skipn filenameIndex l))
    then (String.string_of_list_ascii (firstn d l),
          String.string_of_list_ascii (skipn d l))
    else (p, "")
  else (p, "").

(** [os.path.join] of two components. *)
Definition path_join (a b : string) : string :=
  match chars b with
  | c :: _ => if Ascii.eqb c "/" then b
              else match rev (chars a) with
                   | [] => b
                   | e :: _ => if Ascii.eqb e "/" then a +:+ b
                               else a +:+ "/" +:+ b
                   end
  | [] => match rev (chars a) with
          | [] => b
          | e :: _ => if Ascii.eqb e "/" then a +:+ b else a +:+ "/" +:+ b
          end
  end.

(** [str(n)] for a natural number. *)
Definition str_nat (n : nat) : string :=
  NilEmpty.string_of_uint (Nat.to_uint n).

(** ** Downloader *)

Module Downloader.

(** The code points below 256 that [\w] matches in a [str] pattern, as
    pairs of bounds: with no [re.ASCII] flag the class is the alphanumeric
    characters of Unicode and the underscore, so it holds the letters,
    superscript digits and fractions of Latin-1 besides the ASCII ones. *)
Definition word_ranges : list (nat * nat) :=
  [(48, 57); (65, 90); (95, 95); (97, 122); (170, 170); (178, 179);
   (181, 181); (185, 186); (188, 190); (192, 214); (216, 246); (248, 255)].

(** A character of a [string] stands for the code point of its number. *)
Definition is_word (c : ascii) : bool :=
  let n := Ascii.nat_of_ascii c in
  existsb (fun '(lo, hi) => Nat.leb lo n && Nat.leb n hi) word_ranges.

(** The characters [re.sub(r'[^\w\-_.()\[\] ]+', '', ...)] keeps;
    [re.IGNORECASE] adds none, the class being closed under case. *)
Definition kept (c : ascii) : bool :=
  is_word c
  || existsb (Ascii.eqb c) (chars "-_.()[] ").

Definition _sanitize_name (release_name : string) : string :=
  let replaced :=
    map (fun c => if Ascii.eqb c "/" then "-"%char else c)
        (chars release_name) in
  String.string_of_list_ascii (filter (fun c => kept c = true) replaced).

(** The loop of [_validate_path]; [fuel] bounds the number of tests of
    [os.path.isfile]. *)
Fixpoint _validate_path_loop (fuel : nat) (fs : list string)
    (filename ext : string) (file_path : string) (n : nat)
    : option string :=
  match fuel with
  | 0 => None
  | S fuel' =>
      if isfile fs file_path
      then _validate_path_loop fuel' fs filename ext
             (filename +:+ " (" +:+ str_nat n +:+ ")" +:+ ext) (S n)
      else Some file_path
  end.

(** The names tried are pairwise distinct, so one test more than there
    are files is enough (see [_validate_path_total]). *)
Definition _validate_path (fs : list string) (file_path : string)
    : option string :=
  let '(filename, ext) := splitext file_path in
  _validate_path_loop (S (length fs)) fs filename ext file_path 1.

Section WithArgs.

Variable ARGS : Args.
Variable http : list request -> request -> attempt.

Definition get_files : M (list string) :=
  fun st => (Ok (files st), st).

Definition download (r : candidate) : M unit :=
  let release_name :=
    _sanitize_name (Title r +:+ " [" +:+ Tracker r +:+ "]") in
  match Link r with
  | None => ret tt
  | Some link =>
      let* h := get_history in
      let* grabbed :=
        (if ignore_history ARGS then ret false
         else lift (HistoryManager.is_torrent_previously_grabbed r h)) in
      if (grabbed : bool) then ret tt else
      let file_path :=
        path_join (save_path ARGS) (release_name +:+ ".torrent") in
      let* fs := get_files in
      match _validate_path fs file_path with
      | None => raise Diverges      (* dead: [_validate_path_total] *)
      | Some file_path =>
          let* a := requests_get http (DownloadReq link) in
          match a with
          | Response _ =>
              write_file file_path >>
              (let* h := get_history in
               let* h' := lift (HistoryManager.append_to_download_history
                                  (Details r) (TrackerId r) h) in
               put_history h')
          | _ => raise RequestError
          end
      end
  end.

End WithArgs.

End Downloader.

(** ** main *)

Section Main.

Variable ARGS : Args.
Variable http : list request -> request -> attempt.
(** [ReleaseData.get_release_data]: the file sizes and [guessit]. *)
Variable get_release_data : string -> release_data.
(** The list [paths] of [main], from [ARGS.input_path] and [os.listdir]. *)
Variable paths : list string.
(** What [assert_settings] does: it returns, fails an assertion or exits. *)
Variable assert_settings : result unit.

(** [HistoryManager.get_download_history] *)
Definition get_download_history : M unit :=
  fun st =>
    (Ok tt,
     set_history (match history_file st with
                  | Some h => h
                  | None => empty_history
                  end) st).

(** [json.dump(search_history, f)] on [SearchHistory.json] *)
Definition dump_history : M unit :=
  fun st =>
    (Ok tt,
     {| search_history := search_history st;
        requests := requests st;
        files := files st;
        history_file := Some (search_history st) |}).

Fixpoint download_all (results : list candidate) : M unit :=
  match results with
  | [] => ret tt
  | r :: rest => Downloader.download ARGS http r >> download_all rest
  end.

(** Lines 353-374 of the body of the loop. *)
Definition iteration (path : string) : M unit :=
  let local_release_data := get_release_data path in
  match title (guessed_data local_release_data) with
  | None => ret tt
  | Some _ =>
      let* matching_results :=
        Searcher.search ARGS http local_release_data in
      download_all matching_results
  end.

(** [time.sleep(ARGS.delay)] of line 376, which the [continue] of an
    untitled release skips. *)
Definition pause (path : string) : M unit :=
  match title (guessed_data (get_release_data path)) with
  | None => ret tt
  | Some _ => time_sleep (delay ARGS)
  end.

Fixpoint main_loop (ps : list string) : M unit :=
  match ps with
  | [] => ret tt
  | path :: rest => iteration path >> pause path >> main_loop rest
  end.

Definition main : M unit :=
  lift assert_settings >>
  get_download_history >>
  main_loop paths >>
  dump_history.

End Main.

(** The exit status of the process: [exit(c)] gives [c], any other uncaught
    exception gives 1. *)
Definition exit_status {A} (r : result A) : Z :=
  match r with
  | Ok _ => 0%Z
  | Raise (SystemExit c) => c
  | Raise _ => 1%Z
  end.


(** ** ReleaseData *)

(** What the script asks of the operating system about the input paths:
    the functions of [os] and [os.path] it calls and, on Windows,
    [GetFileAttributesW]. *)
Record filesystem := {
  os_name_nt : bool;                       (* [os.name == 'nt'] *)
  os_path_exists : string -> bool;
  os_path_isfile : string -> bool;
  os_path_isdir : string -> bool;
  os_path_islink : string -> bool;
  os_readlink : string -> string;
  os_path_getsize : string -> Z;
  os_walk : string -> list (string * list string * list string);
  os_path_join : string -> string -> string;
  os_path_basename : string -> string;
  os_path_normpath : string -> string;
  os_listdir : string -> list string;
  GetFileAttributes : string -> Z
}.

Module ReleaseData.

Definition FILE_ATTRIBUTE_REPARSE_POINT : Z := 0x0400%Z.

Section WithFs.

Variable fs : filesystem.
(** [guessit], on the base name of the path. *)
Variable guessit : string -> guessed.

Definition _is_link (file_path : string) : bool :=
  if os_name_nt fs then
    if (Z.land (GetFileAttributes fs file_path) FILE_ATTRIBUTE_REPARSE_POINT
        =? 0)%Z
    then false else true
  else os_path_islink fs file_path.

Definition _get_file_size (file_path : string) : option Z :=
  if _is_link file_path then
    let source_path := os_readlink fs file_path in
    if os_path_isfile fs source_path
    then Some (os_path_getsize fs source_path)
    else None
  else Some (os_path_getsize fs file_path).

(** The inner loop of [_get_total_size], over the file names of one
    directory. *)
Fixpoint _get_total_size_filenames (root : string) (filenames : list string)
    (total_size : Z) : option Z :=
  match filenames with
  | [] => Some total_size
  | filename :: rest =>
      match _get_file_size (os_path_join fs root filename) with
      | None => None
      | Some filesize =>
          _get_total_size_filenames root rest (total_size + filesize)%Z
      end
  end.

(** The outer loop, over what [os.walk] yields. *)
Fixpoint _get_total_size_walk
    (walk : list (string * list string * list string)) (total_size : Z)
    : option Z :=
  match walk with
  | [] => Some total_size
  | (root, _, filenames) :: rest =>
      match _get_total_size_filenames root filenames total_size with
      | None => None
      | Some total_size' => _get_total_size_walk rest total_size'
      end
  end.

Definition _get_total_size (path : string) : option Z :=
  if os_path_isfile fs path then _get_file_size path
  else if os_path_isdir fs path
       then _get_total_size_walk (os_walk fs path) 0%Z
       else None.

Definition get_release_data (path : string) : release_data :=
  {| main_path := path;
     basename := os_path_basename fs path;
     size := _get_total_size path;
     guessed_data := guessit (os_path_basename fs path) |}.

End WithFs.

End ReleaseData.

(** ** assert_settings and the whole script *)

(** [assert b] *)
Definition assert_ (b : bool) : result unit :=
  if b then Ok tt else Raise AssertionError.

(** [assert_settings]; [head url] tells whether [requests.head(url)]
    returns, and [exit()] leaves with status 0. *)
Definition assert_settings (ARGS : Args) (fs : filesystem)
    (head : string -> bool) : result unit :=
  _ ← assert_ (os_path_exists fs (input_path ARGS));
  _ ← (if parse_dir ARGS then assert_ (os_path_isdir fs (input_path ARGS))
       else Ok tt);
  _ ← assert_ (os_path_isdir fs (save_path ARGS));
  _ ← assert_ (String.prefix "http" (jackett_url ARGS));
  if head (jackett_url ARGS) then Ok tt else Raise (SystemExit 0).

(** The list [paths] of [main] (lines 347-348). *)
Definition main_paths (ARGS : Args) (fs : filesystem) : list string :=
  if negb (parse_dir ARGS) then [os_path_normpath fs (input_path ARGS)]
  else map (os_path_join fs (input_path ARGS))
           (os_listdir fs (input_path ARGS)).

(** [main] with its paths, its release data and [assert_settings] as the
    script computes them. *)
Definition script (ARGS : Args) (http : list request -> request -> attempt)
    (fs : filesystem) (guessit : string -> guessed) (head : string -> bool)
    : M unit :=
  main ARGS http (ReleaseData.get_release_data fs guessit)
    (main_paths ARGS fs) (assert_settings ARGS fs head).

(** * The vocabulary of the properties *)

(** The tolerance as the specification words it: 0 in strict mode and
    5 MiB otherwise, doubled for the imprecise tracker. *)
Definition spec_tolerance (strict : bool) (tracker : string) : Z :=
  let T := if strict then 0%Z else (5 * 1024 ^ 2)%Z in
  if decide (tracker = "Blutopia") then (2 * T)%Z else T.

Definition within_tolerance (strict : bool) (s : Z) (r : candidate) : Prop :=
  (Z.abs (Size r - s) ≤ spec_tolerance strict (Tracker r))%Z.

#[global] Instance within_tolerance_dec strict s r :
  Decision (within_tolerance strict s r) :=
  (_ : Decision (_ ≤ _)%Z).

Ltac munfold :=
  unfold bindM, ret, raise, lift, get_history, put_history, set_history,
    requests_get, write_file, Downloader.get_files in *.

(** The search as a function of what the retry loop brought back. *)
Definition after_fetch ARGS (d : release_data) (resp : option response)
    : M (list candidate) :=
  match resp with
  | None => ret []
  | Some r =>
      if negb (ok r) then ret [] else
      match resp_body r with
      | NotJson => ret []
      | Json [] _ => raise (SystemExit 1)
      | Json (_ :: _) results =>
          bindM (Searcher.record_basename d) (fun _ =>
            lift (Searcher._get_matching_results ARGS
                    (Searcher._trim_results results) d))
      end
  end.

(** No basename twice in [basenames_searched], no path twice under one
    tracker in [download_history]. *)
Definition ledger_inv (h : history) : Prop :=
  NoDup (basenames_searched h)
  ∧ map_Forall (λ _ paths, NoDup paths) (download_history h).

Definition scheme (https : bool) : string :=
  if https then "https" else "http".

(** The shape [ \[.*/.*\]] of the annotation. *)
Definition annot (u : list ascii) : Prop :=
  ∃ x y, u = " "%char :: "["%char :: x ++ "/"%char :: y ++ ["]"%char].

Definition annot_re : Re.regex :=
  Re.Group 2
    (Re.Str (chars " [")
       (Re.Seq (Re.Star true Re.CAny)
          (Re.Seq (Re.Lit "/"%char)
             (Re.Seq (Re.Star true Re.CAny) (Re.Lit "]"%char))))).

Definition at_eol : Re.cont :=
  fun pos s caps => Re.run Re.Eol pos s caps Re.accept.

Definition tail_re : Re.regex := Re.Seq (Re.Opt annot_re) Re.Eol.


(** The name tried at turn [i] of the loop: the path itself, then the
    numbered names. *)
Definition numbered (filename ext : string) (n : nat) : string :=
  filename +:+ " (" +:+ str_nat n +:+ ")" +:+ ext.

Definition tried (file_path filename ext : string) (i : nat) : string :=
  match i with
  | 0 => file_path
  | S _ => numbered filename ext i
  end.

(** ** Concrete inputs *)

Definition ARGS_default : Args :=
  {| parse_dir := true; delay := 10; input_path := "/media";
     save_path := "/torrents"; jackett_url := "http://localhost:9117/";
     api_key := "key"; trackers := None;
     ignore_history := false; strict_size := false |}.

Definition ARGS_ignore_history : Args :=
  {| parse_dir := true; delay := 10; input_path := "/media";
     save_path := "/torrents"; jackett_url := "http://localhost:9117/";
     api_key := "key"; trackers := None;
     ignore_history := true; strict_size := false |}.

Definition ARGS_negative_delay : Args :=
  {| parse_dir := true; delay := (-1); input_path := "/media";
     save_path := "/torrents"; jackett_url := "http://localhost:9117/";
     api_key := "key"; trackers := None;
     ignore_history := false; strict_size := false |}.

Definition movie_release : release_data :=
  {| main_path := "/media/Movie.Name.2010.720p";
     basename := "Movie.Name.2010.720p";
     size := Some 1000%Z;
     guessed_data :=
       {| title := Some "Movie Name"; year := Some 2010%Z;
          gtype := Some "movie"; season := None; episode := None |} |}.

Definition other_release : release_data :=
  {| main_path := "/media/Some.Album";
     basename := "Some.Album";
     size := Some 1000%Z;
     guessed_data :=
       {| title := Some "Some Album"; year := None;
          gtype := Some "music"; season := None; episode := None |} |}.

Definition mirror_candidate : candidate :=
  {| Tracker := "Mirror"; TrackerId := "tracker1";
     CategoryDesc := "Movies"; Title := "Movie.Name.2010.720p";
     Link := Some "http://mirror9.example/download?id=55";
     Details := "http://mirror9.example/details?id=55";
     Category := [2000%Z]; Size := 1000%Z; Imdb := None |}.

Definition far_candidate : candidate :=
  {| Tracker := "Mirror"; TrackerId := "tracker1";
     CategoryDesc := "Movies"; Title := "Movie.Name.2010.1080p";
     Link := None;
     Details := "http://mirror9.example/details?id=56";
     Category := [2000%Z]; Size := 9000000%Z; Imdb := None |}.

Definition host_candidate : candidate :=
  {| Tracker := "Mirror"; TrackerId := "tracker1";
     CategoryDesc := "Movies"; Title := "Movie.Name.2010.720p";
     Link := Some "http://host/download";
     Details := "http://host";
     Category := [2000%Z]; Size := 1000%Z; Imdb := None |}.

Definition short_candidate : candidate :=
  {| Tracker := "Mirror"; TrackerId := "tracker1";
     CategoryDesc := "Movies"; Title := "Movie.Name.2010.720p";
     Link := Some "http://h/download";
     Details := "http://h";
     Category := [2000%Z]; Size := 1000%Z; Imdb := None |}.

(** Two candidates of one tracker whose details urls differ in the host
    only, with nothing after it. *)
Definition org_candidate : candidate :=
  {| Tracker := "Mirror"; TrackerId := "tracker1";
     CategoryDesc := "Movies"; Title := "Movie.Name.2010.720p";
     Link := Some "http://tracker1.org/download";
     Details := "http://tracker1.org";
     Category := [2000%Z]; Size := 1000%Z; Imdb := None |}.

Definition com_candidate : candidate :=
  {| Tracker := "Mirror"; TrackerId := "tracker1";
     CategoryDesc := "Movies"; Title := "Movie.Name.2010.720p";
     Link := Some "http://tracker1.com/download";
     Details := "http://tracker1.com";
     Category := [2000%Z]; Size := 1000%Z; Imdb := None |}.

(** An aggregator that answers every request with one indexer and no
    result, and one that reports no indexer. *)
Definition http_no_result : list request -> request -> attempt :=
  fun _ _ => Response {| ok := true; resp_body := Json ["tracker1"] [] |}.

Definition http_no_indexer : list request -> request -> attempt :=
  fun _ _ => Response {| ok := true; resp_body := Json [] [] |}.

Definition fresh_state : state :=
  {| search_history := empty_history; requests := [];
     files := []; history_file := None |}.

Definition some_history : history :=
  {| basenames_searched := ["Old.Release.2001"];
     download_history := {[ "tracker1" := ["/details?id=55"] ]} |}.

(** ** The vocabulary of the further properties *)


(** The path of [Downloader.download] before [_validate_path]. *)
Definition torrent_path (ARGS : Args) (r : candidate) : string :=
  path_join (save_path ARGS)
    (Downloader._sanitize_name (Title r +:+ " [" +:+ Tracker r +:+ "]")
     +:+ ".torrent").

(** The state after the request for a torrent and the write of its file. *)
Definition after_download (link file_path : string) (h : history)
    (st : state) : state :=
  {| search_history := h;
     requests := requests st ++ [DownloadReq link];
     files := files st ++ [file_path];
     history_file := history_file st |}.

(** [h'] has everything [h] has, in the same order: the history only
    grows at the end of its lists. *)
Definition history_le (h h' : history) : Prop :=
  basenames_searched h `prefix_of` basenames_searched h'
  ∧ ∀ tid paths,
      download_history h !! tid = Some paths →
      ∃ paths', download_history h' !! tid = Some paths'
                ∧ paths `prefix_of` paths'.

(** The history a run starts from. *)
Definition loaded_history (st : state) : history :=
  match history_file st with
  | Some h => h
  | None => empty_history
  end.

(** The files [os.walk] yields below a directory, joined to their roots,
    in the order of the walk. *)
Definition walked_files (fs : filesystem) (path : string) : list string :=
  concat (map (λ '(root, _, filenames),
                 map (os_path_join fs root) filenames)
              (os_walk fs path)).

Definition sum_sizes (sizes : list Z) : Z := foldr Z.add 0%Z sizes.

(** The size of the file is known to [_get_file_size]. *)
Definition size_known (fs : filesystem) (f : string) : bool :=
  match ReleaseData._get_file_size fs f with
  | Some _ => true
  | None => false
  end.

Definition known_sizes (fs : filesystem) (files : list string) : list Z :=
  map (λ f, default 0%Z (ReleaseData._get_file_size fs f)) files.

(** The directory part of the paths [Downloader.download] writes:
    [ARGS.save_path], with the separator [os.path.join] adds. *)
Definition save_prefix (ARGS : Args) : string :=
  match rev (chars (save_path ARGS)) with
  | [] => ""
  | e :: _ => if Ascii.eqb e "/" then save_path ARGS
              else save_path ARGS +:+ "/"
  end.

(** The sanitized name of a candidate: ['{Title} [{Tracker}]']. *)
Definition torrent_name (r : candidate) : string :=
  Downloader._sanitize_name (Title r +:+ " [" +:+ Tracker r +:+ "]").

(** [genericpath._splitext] once the index of the last separator is
    known; [splitext] is [splitext_from] at the last [/]. *)
Definition splitext_from (sepIndex : Z) (p : string) : string * string :=
  let l := chars p in
  let dotIndex := rfind "." l in
  if (sepIndex <? dotIndex)%Z then
    let filenameIndex := Z.to_nat (sepIndex + 1) in
    let d := Z.to_nat dotIndex in
    if existsb (fun c => negb (Ascii.eqb c "."))
         (firstn (d - filenameIndex) (skipn filenameIndex l))
    then (String.string_of_list_ascii (firstn d l),
          String.string_of_list_ascii (skipn d l))
    else (p, "")
  else (p, "").

Definition backslash : ascii := Ascii.ascii_of_nat 92.

(** [ntpath.splitext], which [os.path.splitext] is on Windows: the
    separator is the last backslash or slash. *)
Definition nt_splitext (p : string) : string * string :=
  splitext_from
    (Z.max (rfind backslash (chars p)) (rfind "/" (chars p))) p.

(** The replacement [release_name.replace('/', '-')] on one character. *)
Definition dash_for_slash (c : ascii) : ascii :=
  if Ascii.eqb c "/" then "-"%char else c.

(** ** More concrete inputs *)

Definition http_timeout : list request -> request -> attempt :=
  fun _ _ => ReadTimeout.

Definition http_not_json : list request -> request -> attempt :=
  fun _ _ => Response {| ok := true; resp_body := NotJson |}.

(** One indexer and one result, the candidate of the mirror. *)
Definition http_one_result : list request -> request -> attempt :=
  fun _ _ =>
    Response {| ok := true;
                resp_body := Json ["tracker1"] [mirror_candidate] |}.

(** A directory with a regular file and a link whose target is missing. *)
Definition fs_dangling : filesystem :=
  {| os_name_nt := false;
     os_path_exists := fun p => String.eqb p "/media/Rel";
     os_path_isfile := fun _ => false;
     os_path_isdir := fun p => String.eqb p "/media/Rel";
     os_path_islink := fun p => String.eqb p "/media/Rel/link.nfo";
     os_readlink := fun _ => "missing.nfo";
     os_path_getsize := fun _ => 700%Z;
     os_walk := fun _ => [("/media/Rel", [], ["a.mkv"; "link.nfo"])];
     os_path_join := path_join;
     os_path_basename := fun _ => "Rel";
     os_path_normpath := fun p => p;
     os_listdir := fun _ => ["Rel"];
     GetFileAttributes := fun _ => 0%Z |}.

(** The same directory without the link, and on Windows a file whose
    attributes have the reparse bit and the directory bit. *)
Definition fs_plain : filesystem :=
  {| os_name_nt := true;
     os_path_exists := fun p => String.eqb p "/media/Rel";
     os_path_isfile := fun _ => false;
     os_path_isdir := fun p => String.eqb p "/media/Rel";
     os_path_islink := fun _ => false;
     os_readlink := fun _ => "";
     os_path_getsize := fun _ => 700%Z;
     os_walk := fun _ => [("/media/Rel", ["sub"], ["a.mkv"]);
                          ("/media/Rel/sub", [], ["b.srt"])];
     os_path_join := path_join;
     os_path_basename := fun _ => "Rel";
     os_path_normpath := fun p => p;
     os_listdir := fun _ => ["Rel"];
     GetFileAttributes :=
       fun p => if String.eqb p "C:\link" then 1040%Z else 32%Z |}.


(** * Properties *)

(** ** Membership loops *)

Lemma str_in_spec (x : string) (l : list string) :
  HistoryManager.str_in x l = true ↔ x ∈ l.
Proof.
  unfold HistoryManager.str_in. rewrite existsb_exists. split.
  - intros (y & Hy & Heq). apply String.eqb_eq in Heq. subst.
    by apply list_elem_of_In.
  - intros Hx. exists x. split; [by apply list_elem_of_In|].
    apply String.eqb_refl.
Qed.

Lemma str_in_false (x : string) (l : list string) :
  HistoryManager.str_in x l = false ↔ x ∉ l.
Proof.
  rewrite <- str_in_spec. destruct (HistoryManager.str_in x l); naive_solver.
Qed.

Lemma is_file_previously_searched_loop_spec (b : string) (l : list string) :
  HistoryManager.is_file_previously_searched_loop b l = true ↔ b ∈ l.
Proof.
  induction l as [|x l IH]; simpl.
  - split; [done | by intros ?%elem_of_nil].
  - destruct (String.eqb_spec b x) as [->|Hne].
    + split; [intros _; left | done].
    + rewrite IH, elem_of_cons. split; [by right | by intros [?|?]].
Qed.

Lemma grabbed_loop_spec (p : string) (l : list string) :
  HistoryManager.grabbed_loop p l = true ↔ p ∈ l.
Proof.
  induction l as [|x l IH]; simpl.
  - split; [done | by intros ?%elem_of_nil].
  - destruct (String.eqb_spec x p) as [->|Hne].
    + split; [intros _; left | done].
    + rewrite IH, elem_of_cons. split; [by right | by intros [?|?]].
Qed.

Lemma isfile_spec (fs : list string) (p : string) :
  isfile fs p = true ↔ p ∈ fs.
Proof. apply str_in_spec. Qed.

(** ** The size tolerance *)

Lemma _get_matching_results_loop_spec (ARGS : Args) (d : release_data)
    (s : Z) (rs acc : list candidate) :
  size d = Some s →
  Searcher._get_matching_results_loop ARGS rs d acc
  = Ok (acc ++ filter (within_tolerance (strict_size ARGS) s) rs).
Proof.
  intros Hs. revert acc. induction rs as [|r rs IH]; intros acc; simpl.
  - by rewrite filter_nil, app_nil_r.
  - rewrite Hs.
    assert (Hmax :
      (if String.eqb (Tracker r) "Blutopia"
       then (Searcher.max_size_difference ARGS * 2)%Z
       else Searcher.max_size_difference ARGS)
      = spec_tolerance (strict_size ARGS) (Tracker r)).
    { unfold spec_tolerance, Searcher.max_size_difference,
        Searcher.size_differences_strictness, Searcher.MiB.
      destruct (String.eqb_spec (Tracker r) "Blutopia") as [->|Hne].
      - rewrite decide_True by done. destruct (strict_size ARGS); lia.
      - rewrite decide_False by done. by destruct (strict_size ARGS). }
    rewrite Hmax.
    destruct (Z.leb_spec (Z.abs (Size r - s))
                (spec_tolerance (strict_size ARGS) (Tracker r))) as [Hle|Hgt].
    + rewrite IH. rewrite filter_cons_True by done.
      by rewrite <- app_assoc.
    + rewrite IH. rewrite filter_cons_False; [done|].
      unfold within_tolerance. lia.
Qed.

Lemma _get_matching_results_spec (ARGS : Args) (d : release_data)
    (s : Z) (rs : list candidate) :
  size d = Some s →
  Searcher._get_matching_results ARGS rs d
  = Ok (filter (within_tolerance (strict_size ARGS) s) rs).
Proof.
  intros Hs. unfold Searcher._get_matching_results.
  by rewrite (_get_matching_results_loop_spec ARGS d s).
Qed.

(** C2. For a release of known size [s], the match engine returns exactly
    the candidates [r] of the result list with
    [abs (Size r - s) <= T], in their order, where [T] is 0 in strict mode
    and 5 * 1024^2 otherwise, doubled when the tracker of [r] is the
    imprecise one. *)
Theorem C2_size_tolerance (ARGS : Args) (d : release_data) (s : Z)
    (rs : list candidate) :
  size d = Some s →
  ∃ out,
    Searcher._get_matching_results ARGS rs d = Ok out
    ∧ out = filter (within_tolerance (strict_size ARGS) s) rs
    ∧ ∀ r, r ∈ out ↔
           r ∈ rs
           ∧ (Z.abs (Size r - s)
              ≤ (if decide (Tracker r = "Blutopia") then 2 else 1)
                * (if strict_size ARGS then 0 else 5 * 1024 ^ 2))%Z.
Proof.
  intros Hs. eexists. split; [by apply _get_matching_results_spec|].
  split; [done|]. intros r. rewrite list_elem_of_filter.
  unfold within_tolerance, spec_tolerance.
  destruct (decide (Tracker r = "Blutopia")), (strict_size ARGS);
    split; intros [? ?]; split; try done; lia.
Qed.

(** ** What the search does to the state *)

(** The retry loop only adds requests: at least one, at most one per
    turn. *)
Lemma fetch_loop_frame ARGS http (ns : list nat) (req : request)
    (st : state) :
  let st' := (Searcher.fetch_loop ARGS http ns req st).2 in
  search_history st' = search_history st
  ∧ files st' = files st
  ∧ history_file st' = history_file st
  ∧ ∃ k, requests st' = requests st ++ replicate k req
         ∧ k ≤ length ns ∧ (ns ≠ [] → 1 ≤ k).
Proof.
  revert st. induction ns as [|n ns IH]; intros st; simpl.
  - split_and!; try done. exists 0. simpl. rewrite app_nil_r.
    split_and!; [done | lia | done].
  - munfold. simpl.
    set (st1 := {| search_history := search_history st;
                   requests := requests st ++ [req];
                   files := files st;
                   history_file := history_file st |}).
    assert (Hstop : ∃ k, requests st1 = requests st ++ replicate k req
                         ∧ k ≤ S (length ns) ∧ (n :: ns ≠ [] → 1 ≤ k)).
    { exists 1. split_and!; [done | lia | done]. }
    assert (Hgo : ∃ k, requests (Searcher.fetch_loop ARGS http ns req st1).2
                       = requests st ++ replicate k req
                       ∧ k ≤ S (length ns) ∧ (n :: ns ≠ [] → 1 ≤ k)).
    { destruct (IH st1) as (_ & _ & _ & k & Hk & Hle & _).
      exists (S k). rewrite Hk. simpl. rewrite <- app_assoc.
      split_and!; [done | lia | lia]. }
    destruct (IH st1) as (Hh & Hf & Hhf & _).
    destruct (http (requests st) req) eqn:Ha; [| |done|done].
    all: unfold time_sleep; munfold;
         destruct (Nat.eqb n 0), (delay ARGS <? 0)%Z; done.
Qed.

Lemma fetch_requests_grow ARGS http (u : search_url) (d : release_data)
    (st : state) :
  length (requests st) < length (requests (Searcher.fetch ARGS http u d st).2).
Proof.
  unfold Searcher.fetch.
  destruct (fetch_loop_frame ARGS http (seq 0 2) (SearchReq u d) st)
    as (_ & _ & _ & k & Hk & _ & Hpos).
  rewrite Hk, length_app, length_replicate.
  specialize (Hpos ltac:(done)). lia.
Qed.

Lemma fetch_frame ARGS http (u : search_url) (d : release_data)
    (st : state) :
  let st' := (Searcher.fetch ARGS http u d st).2 in
  search_history st' = search_history st
  ∧ files st' = files st
  ∧ history_file st' = history_file st.
Proof.
  unfold Searcher.fetch.
  destruct (fetch_loop_frame ARGS http (seq 0 2) (SearchReq u d) st)
    as (? & ? & ? & _). done.
Qed.

Lemma search_skip ARGS http (d : release_data) (st : state) :
  Searcher._is_skip_worthy ARGS d (search_history st) = true →
  Searcher.search ARGS http d st = (Ok [], st).
Proof.
  intros Hskip. unfold Searcher.search. munfold. by rewrite Hskip.
Qed.

Lemma record_basename_spec (d : release_data) (st : state) :
  Searcher.record_basename d st
  = (Ok tt,
     set_history
       {| basenames_searched :=
            if decide (basename d ∈ basenames_searched (search_history st))
            then basenames_searched (search_history st)
            else basenames_searched (search_history st) ++ [basename d];
          download_history := download_history (search_history st) |} st).
Proof.
  unfold Searcher.record_basename. munfold.
  destruct (HistoryManager.str_in _ _) eqn:Hin.
  - apply str_in_spec in Hin. rewrite decide_True by done.
    destruct st as [[] ? ? ?]; done.
  - apply str_in_false in Hin. by rewrite decide_False.
Qed.

Lemma search_noskip ARGS http (d : release_data) (st : state)
    (q : string) (u : search_url) :
  Searcher._is_skip_worthy ARGS d (search_history st) = false →
  Searcher.search_query_of d = Ok q →
  Searcher._get_full_search_url ARGS q d = Ok u →
  Searcher.search ARGS http d st
  = match Searcher.fetch ARGS http u d st with
    | (Ok resp, st1) => after_fetch ARGS d resp st1
    | (Raise e, st1) => (Raise e, st1)
    end.
Proof.
  intros Hskip Hq Hu. unfold Searcher.search, after_fetch. munfold.
  rewrite Hskip, Hq, Hu.
  destruct (Searcher.fetch ARGS http u d st) as [[resp|e] st1]; [|done].
  destruct resp as [r|]; [|done].
  destruct (negb (ok r)); [done|].
  destruct (resp_body r) as [|[|ix ixs] results]; done.
Qed.

Lemma after_fetch_requests ARGS (d : release_data) (resp : option response)
    (st : state) :
  requests (after_fetch ARGS d resp st).2 = requests st.
Proof.
  unfold after_fetch. destruct resp as [r|]; [|done].
  destruct (negb (ok r)); [done|].
  destruct (resp_body r) as [|[|ix ixs] results]; try done.
  unfold bindM. rewrite record_basename_spec. unfold lift, set_history.
  by destruct (Searcher._get_matching_results _ _ _).
Qed.

Lemma _is_skip_worthy_spec ARGS (d : release_data) (h : history) :
  Searcher._is_skip_worthy ARGS d h = true
  ↔ (basename d ∈ basenames_searched h
     ∧ ignore_history ARGS = false ∧ parse_dir ARGS = true)
    ∨ size d = None.
Proof.
  unfold Searcher._is_skip_worthy,
    HistoryManager.is_file_previously_searched.
  pose proof (is_file_previously_searched_loop_spec (basename d)
                (basenames_searched h)) as Hs.
  destruct (HistoryManager.is_file_previously_searched_loop _ _),
    (ignore_history ARGS), (parse_dir ARGS), (size d); simpl;
    split; try done; try (by intros _; right);
    try (by intros _; left; split_and!; [apply Hs|..]);
    intros [(Hin & ? & ?)|?]; try done;
    apply Hs in Hin; done.
Qed.

(** C4. The search returns the empty list with no request issued exactly
    when the basename is in [basenames_searched] while history is not
    ignored and the run parses a whole directory, or the size is [None]. *)
Theorem C4_skip_conditions ARGS http (d : release_data) (st : state) :
  ((Searcher.search ARGS http d st).1 = Ok []
   ∧ requests (Searcher.search ARGS http d st).2 = requests st)
  ↔ (basename d ∈ basenames_searched (search_history st)
     ∧ ignore_history ARGS = false ∧ parse_dir ARGS = true)
    ∨ size d = None.
Proof.
  rewrite <- _is_skip_worthy_spec. split.
  - intros [Hres Hreq].
    destruct (Searcher._is_skip_worthy ARGS d (search_history st)) eqn:Hskip;
      [done|]. exfalso.
    destruct (Searcher.search_query_of d) as [q|e] eqn:Hq.
    2:{ unfold Searcher.search in Hres. munfold.
        rewrite Hskip, Hq in Hres. done. }
    destruct (Searcher._get_full_search_url ARGS q d) as [u|e] eqn:Hu.
    2:{ unfold Searcher.search in Hres. munfold.
        rewrite Hskip, Hq, Hu in Hres. done. }
    rewrite (search_noskip ARGS http d st q u) in Hres, Hreq by done.
    pose proof (fetch_requests_grow ARGS http u d st) as Hgrow.
    destruct (Searcher.fetch ARGS http u d st) as [[resp|e] st1]; [|done].
    rewrite after_fetch_requests in Hreq. simpl in Hgrow.
    rewrite Hreq in Hgrow. lia.
  - intros Hskip. by rewrite search_skip.
Qed.

(** The search, case by case. *)
Lemma search_cases ARGS http (d : release_data) (st : state) :
  Searcher.search ARGS http d st
  = if Searcher._is_skip_worthy ARGS d (search_history st) then (Ok [], st)
    else
      match Searcher.search_query_of d with
      | Raise e => (Raise e, st)
      | Ok q =>
          match Searcher._get_full_search_url ARGS q d with
          | Raise e => (Raise e, st)
          | Ok u =>
              match Searcher.fetch ARGS http u d st with
              | (Ok resp, st1) => after_fetch ARGS d resp st1
              | (Raise e, st1) => (Raise e, st1)
              end
          end
      end.
Proof.
  destruct (Searcher._is_skip_worthy ARGS d (search_history st)) eqn:Hskip.
  { by apply search_skip. }
  destruct (Searcher.search_query_of d) as [q|e] eqn:Hq.
  2:{ unfold Searcher.search. munfold. by rewrite Hskip, Hq. }
  destruct (Searcher._get_full_search_url ARGS q d) as [u|e] eqn:Hu.
  2:{ unfold Searcher.search. munfold. by rewrite Hskip, Hq, Hu. }
  by apply (search_noskip ARGS http d st q u).
Qed.

Lemma after_fetch_well_formed ARGS (d : release_data) (r : response)
    (ix : string) (ixs : list string) (results : list candidate)
    (s : Z) (st : state) :
  ok r = true → resp_body r = Json (ix :: ixs) results → size d = Some s →
  after_fetch ARGS d (Some r) st
  = (Ok (filter (within_tolerance (strict_size ARGS) s)
           (Searcher._trim_results results)),
     set_history
       {| basenames_searched :=
            if decide (basename d ∈ basenames_searched (search_history st))
            then basenames_searched (search_history st)
            else basenames_searched (search_history st) ++ [basename d];
          download_history := download_history (search_history st) |} st).
Proof.
  intros Hok Hbody Hs. unfold after_fetch. rewrite Hok, Hbody. simpl.
  unfold bindM. rewrite record_basename_spec. unfold lift.
  by rewrite (_get_matching_results_spec ARGS d s).
Qed.

Lemma not_skip_worthy_size ARGS (d : release_data) (h : history) :
  Searcher._is_skip_worthy ARGS d h = false → ∃ s, size d = Some s.
Proof.
  unfold Searcher._is_skip_worthy.
  destruct (_ && _); [done|]. destruct (size d) as [s|]; [eauto | done].
Qed.

(** C1 (amended). After a query whose response is well formed (status ok,
    a JSON body, a non-empty indexer list; the result list may be empty)
    the search returns normally and the basename is in
    [basenames_searched], whether history-ignoring mode is active or not;
    a basename already present is not added a second time, and nothing else
    of the history changes. *)
Theorem C1_basename_recorded ARGS http (d : release_data) (st st1 : state)
    (q : string) (u : search_url) (r : response)
    (ix : string) (ixs : list string) (results : list candidate) :
  Searcher._is_skip_worthy ARGS d (search_history st) = false →
  Searcher.search_query_of d = Ok q →
  Searcher._get_full_search_url ARGS q d = Ok u →
  Searcher.fetch ARGS http u d st = (Ok (Some r), st1) →
  ok r = true →
  resp_body r = Json (ix :: ixs) results →
  let old := basenames_searched (search_history st) in
  ∃ out st',
    Searcher.search ARGS http d st = (Ok out, st')
    ∧ basename d ∈ basenames_searched (search_history st')
    ∧ basenames_searched (search_history st')
      = (if decide (basename d ∈ old) then old else old ++ [basename d])
    ∧ download_history (search_history st')
      = download_history (search_history st).
Proof.
  intros Hskip Hq Hu Hfetch Hok Hbody old.
  destruct (not_skip_worthy_size _ _ _ Hskip) as [s Hs].
  pose proof (fetch_frame ARGS http u d st) as (Hh & _ & _).
  rewrite Hfetch in Hh. simpl in Hh.
  rewrite search_cases, Hskip, Hq, Hu, Hfetch.
  rewrite (after_fetch_well_formed ARGS d r ix ixs results s) by done.
  eexists _, _. split; [done|]. simpl. rewrite Hh. fold old.
  split_and!; [|done..].
  destruct (decide (basename d ∈ old)); [done|].
  apply elem_of_app. right. by left.
Qed.

(** C9. For a release whose guessed type is neither "movie" nor "episode"
    the construction of the search url raises a key error, and a search
    that reaches it (the release is not skipped and has a title) fails with
    that error, with no request issued and the state as it was. *)
Theorem C9_unknown_category_raises ARGS http (d : release_data)
    (q : string) (st : state) :
  gtype (guessed_data d) ≠ Some "movie" →
  gtype (guessed_data d) ≠ Some "episode" →
  ∃ key,
    Searcher._get_full_search_url ARGS q d = Raise (KeyError key)
    ∧ (Searcher._is_skip_worthy ARGS d (search_history st) = false →
       Searcher.search_query_of d = Ok q →
       Searcher.search ARGS http d st = (Raise (KeyError key), st)).
Proof.
  intros Hm He.
  assert (∃ key, Searcher._get_full_search_url ARGS q d
                 = Raise (KeyError key)) as [key Hkey].
  { unfold Searcher._get_full_search_url.
    destruct (gtype (guessed_data d)) as [ty|]; [|by eexists].
    unfold Searcher.category_types.
    destruct (String.eqb_spec ty "movie") as [->|_]; [done|].
    destruct (String.eqb_spec ty "episode") as [->|_]; [done|].
    by eexists. }
  exists key. split; [done|]. intros Hskip Hq.
  by rewrite search_cases, Hskip, Hq, Hkey.
Qed.

(** ** The ledger invariant *)

Lemma NoDup_snoc_fresh (x : string) (l : list string) :
  NoDup l → x ∉ l → NoDup (l ++ [x]).
Proof.
  intros Hl Hx. apply NoDup_app. split_and!; [done | | apply NoDup_singleton].
  intros y Hy Hyx. apply list_elem_of_singleton in Hyx. by subst.
Qed.

Lemma append_to_download_history_inv (details_url tracker_id : string)
    (h h' : history) :
  ledger_inv h →
  HistoryManager.append_to_download_history details_url tracker_id h = Ok h' →
  ledger_inv h'.
Proof.
  intros [Hb Hd] Happ.
  unfold HistoryManager.append_to_download_history in Happ.
  destruct (url_path details_url) as [p|e]; simpl in Happ; [|done].
  injection Happ as <-. split; simpl; [done|].
  destruct (download_history h !! tracker_id) as [paths|] eqn:Hlook.
  - rewrite Hlook. simpl.
    destruct (HistoryManager.str_in p paths) eqn:Hin; [done|].
    apply str_in_false in Hin.
    apply map_Forall_insert_2; [|done].
    apply NoDup_snoc_fresh; [|done].
    by apply (map_Forall_lookup_1 _ _ _ _ Hd Hlook).
  - rewrite lookup_insert_eq. simpl.
    apply map_Forall_insert_2; [apply NoDup_singleton|].
    apply map_Forall_insert_2; [apply NoDup_nil_2 | done].
Qed.

Lemma record_basename_inv (d : release_data) (st : state) :
  ledger_inv (search_history st) →
  ledger_inv (search_history (Searcher.record_basename d st).2).
Proof.
  intros [Hb Hd]. rewrite record_basename_spec. simpl. split; simpl; [|done].
  destruct (decide (basename d ∈ basenames_searched (search_history st)));
    [done|]. by apply NoDup_snoc_fresh.
Qed.

Lemma after_fetch_inv ARGS (d : release_data) (resp : option response)
    (st : state) :
  ledger_inv (search_history st) →
  ledger_inv (search_history (after_fetch ARGS d resp st).2).
Proof.
  intros Hinv. unfold after_fetch. destruct resp as [r|]; [|done].
  destruct (negb (ok r)); [done|].
  destruct (resp_body r) as [|[|ix ixs] results]; try done.
  unfold bindM. pose proof (record_basename_inv d st Hinv) as Hrec.
  destruct (Searcher.record_basename d st) as [[[]|e] st1]; [|done].
  unfold lift. by destruct (Searcher._get_matching_results _ _ _).
Qed.

Lemma search_inv ARGS http (d : release_data) (st : state) :
  ledger_inv (search_history st) →
  ledger_inv (search_history (Searcher.search ARGS http d st).2).
Proof.
  intros Hinv. rewrite search_cases.
  destruct (Searcher._is_skip_worthy _ _ _); [done|].
  destruct (Searcher.search_query_of d) as [q|e]; [|done].
  destruct (Searcher._get_full_search_url ARGS q d) as [u|e]; [|done].
  pose proof (fetch_frame ARGS http u d st) as (Hh & _ & _).
  destruct (Searcher.fetch ARGS http u d st) as [[resp|e] st1]; simpl in Hh.
  - apply after_fetch_inv. by rewrite Hh.
  - simpl. by rewrite Hh.
Qed.

(** What a download leaves of the history and of the history file. *)
Lemma download_history_cases ARGS http (r : candidate) (st : state) :
  let st' := (Downloader.download ARGS http r st).2 in
  history_file st' = history_file st
  ∧ (search_history st' = search_history st
     ∨ HistoryManager.append_to_download_history
         (Details r) (TrackerId r) (search_history st)
       = Ok (search_history st')).
Proof.
  intros st'. subst st'. unfold Downloader.download.
  destruct (Link r) as [link|]; [|split; [done | by left]].
  munfold.
  destruct (ignore_history ARGS).
  - destruct (Downloader._validate_path _ _) as [fp|]; [|split; [done | by left]].
    destruct (http (requests st) (DownloadReq link));
      simpl; try (split; [done | by left]).
    destruct (HistoryManager.append_to_download_history _ _ _) as [h'|e]
      eqn:Happ; simpl; [split; [done | by right] | split; [done | by left]].
  - destruct (HistoryManager.is_torrent_previously_grabbed _ _) as [[]|e];
      try (split; [done | by left]).
    destruct (Downloader._validate_path _ _) as [fp|]; [|split; [done | by left]].
    destruct (http (requests st) (DownloadReq link));
      simpl; try (split; [done | by left]).
    destruct (HistoryManager.append_to_download_history _ _ _) as [h'|e]
      eqn:Happ; simpl; [split; [done | by right] | split; [done | by left]].
Qed.

Lemma download_inv ARGS http (r : candidate) (st : state) :
  ledger_inv (search_history st) →
  ledger_inv (search_history (Downloader.download ARGS http r st).2).
Proof.
  intros Hinv.
  destruct (download_history_cases ARGS http r st) as (_ & [-> | Happ]);
    [done|].
  by eapply append_to_download_history_inv.
Qed.

(** C6. From every history that has no basename twice and no path twice
    under one tracker, the search (whatever its outcome), the append to the
    download history and a whole download lead to a history with the same
    property, for every command line, history-ignoring mode included. *)
Theorem C6_ledger_invariant (h : history) :
  ledger_inv h →
  (∀ ARGS http d st,
     search_history st = h →
     ledger_inv (search_history (Searcher.search ARGS http d st).2))
  ∧ (∀ details_url tracker_id h',
       HistoryManager.append_to_download_history details_url tracker_id h
       = Ok h' →
       ledger_inv h')
  ∧ (∀ ARGS http r st,
       search_history st = h →
       ledger_inv (search_history (Downloader.download ARGS http r st).2)).
Proof.
  intros Hinv. split_and!.
  - intros ARGS http d st <-. by apply search_inv.
  - intros details_url tracker_id h'.
    by apply append_to_download_history_inv.
  - intros ARGS http r st <-. by apply download_inv.
Qed.

(** ** The run and the history file *)

Lemma after_fetch_history_file ARGS (d : release_data)
    (resp : option response) (st : state) :
  history_file (after_fetch ARGS d resp st).2 = history_file st.
Proof.
  unfold after_fetch. destruct resp as [r|]; [|done].
  destruct (negb (ok r)); [done|].
  destruct (resp_body r) as [|[|ix ixs] results]; try done.
  unfold bindM. rewrite record_basename_spec. unfold lift, set_history.
  by destruct (Searcher._get_matching_results _ _ _).
Qed.

Lemma search_history_file ARGS http (d : release_data) (st : state) :
  history_file (Searcher.search ARGS http d st).2 = history_file st.
Proof.
  rewrite search_cases.
  destruct (Searcher._is_skip_worthy _ _ _); [done|].
  destruct (Searcher.search_query_of d) as [q|e]; [|done].
  destruct (Searcher._get_full_search_url ARGS q d) as [u|e]; [|done].
  pose proof (fetch_frame ARGS http u d st) as (_ & _ & Hhf).
  destruct (Searcher.fetch ARGS http u d st) as [[resp|e] st1]; simpl in Hhf.
  - by rewrite after_fetch_history_file.
  - done.
Qed.

Lemma download_all_history_file ARGS http (rs : list candidate)
    (st : state) :
  history_file (download_all ARGS http rs st).2 = history_file st.
Proof.
  revert st. induction rs as [|r rs IH]; intros st; simpl; [done|].
  unfold bindM.
  pose proof (download_history_cases ARGS http r st) as [Hhf _].
  destruct (Downloader.download ARGS http r st) as [[[]|e] st1];
    simpl in Hhf; [by rewrite IH | done].
Qed.

Lemma iteration_history_file ARGS http grd (path : string) (st : state) :
  history_file (iteration ARGS http grd path st).2 = history_file st.
Proof.
  unfold iteration. destruct (title _); [|done]. unfold bindM.
  pose proof (search_history_file ARGS http (grd path) st) as Hhf.
  destruct (Searcher.search ARGS http (grd path) st) as [[rs|e] st1];
    simpl in Hhf; [by rewrite download_all_history_file | done].
Qed.

(** The sleep between two releases returns or raises [ValueError]; the
    state is the same either way. *)
Lemma time_sleep_cases (secs : Z) (st : state) :
  time_sleep secs st
  = (if (secs <? 0)%Z then Raise ValueError else Ok tt, st).
Proof. unfold time_sleep. by destruct (secs <? 0)%Z. Qed.

Lemma pause_cases ARGS grd (path : string) (st : state) :
  pause ARGS grd path st = (Ok tt, st)
  ∨ pause ARGS grd path st = (Raise ValueError, st).
Proof.
  unfold pause. destruct (title _); [|by left].
  rewrite time_sleep_cases. destruct (_ <? _)%Z; [by right | by left].
Qed.

(** No iteration of the loop writes the history file. *)
Lemma main_loop_history_file ARGS http grd (ps : list string) (st : state) :
  history_file (main_loop ARGS http grd ps st).2 = history_file st.
Proof.
  revert st. induction ps as [|p ps IH]; intros st; simpl; [done|].
  unfold bindM.
  pose proof (iteration_history_file ARGS http grd p st) as Hhf.
  destruct (iteration ARGS http grd p st) as [[[]|e] st1];
    simpl in Hhf; [|done].
  destruct (pause_cases ARGS grd p st1) as [-> | ->]; [by rewrite IH | done].
Qed.

Lemma main_loop_app ARGS http grd (ps1 ps2 : list string) (st : state) :
  main_loop ARGS http grd (ps1 ++ ps2) st
  = match main_loop ARGS http grd ps1 st with
    | (Ok _, st1) => main_loop ARGS http grd ps2 st1
    | (Raise e, st1) => (Raise e, st1)
    end.
Proof.
  revert st. induction ps1 as [|p ps1 IH]; intros st; simpl; [done|].
  unfold bindM.
  destruct (iteration ARGS http grd p st) as [[[]|e] st1]; [|done].
  destruct (pause_cases ARGS grd p st1) as [-> | ->]; [apply IH | done].
Qed.

(** An exception of the loop ends the run before the history is dumped. *)
Lemma main_abort ARGS http grd (ps : list string) (st st' : state)
    (e : exn) :
  main_loop ARGS http grd ps (get_download_history st).2 = (Raise e, st') →
  main ARGS http grd ps (Ok tt) st = (Raise e, st')
  ∧ history_file st' = history_file st.
Proof.
  intros Hloop. split.
  - unfold main, bindM, lift. simpl in *. by rewrite Hloop.
  - pose proof (main_loop_history_file ARGS http grd ps
                  (get_download_history st).2) as Hhf.
    rewrite Hloop in Hhf. done.
Qed.

(** C3. When the response of a search reports an empty indexer list, the
    run ends there with exit status 1: no further request is made, nothing
    is downloaded, and the history file keeps the content it had when the
    run began. *)
Theorem C3_no_indexers_aborts ARGS http grd (ps1 ps2 : list string)
    (p : string) (st0 st1 st2 : state) (q : string) (u : search_url)
    (r : response) (results : list candidate) :
  main_loop ARGS http grd ps1 (get_download_history st0).2 = (Ok tt, st1) →
  Searcher._is_skip_worthy ARGS (grd p) (search_history st1) = false →
  Searcher.search_query_of (grd p) = Ok q →
  Searcher._get_full_search_url ARGS q (grd p) = Ok u →
  Searcher.fetch ARGS http u (grd p) st1 = (Ok (Some r), st2) →
  ok r = true →
  resp_body r = Json [] results →
  main ARGS http grd (ps1 ++ p :: ps2) (Ok tt) st0
  = (Raise (SystemExit 1), st2)
  ∧ exit_status (main ARGS http grd (ps1 ++ p :: ps2) (Ok tt) st0).1 = 1%Z
  ∧ history_file st2 = history_file st0
  ∧ search_history st2 = search_history st1
  ∧ files st2 = files st1.
Proof.
  intros Hloop Hskip Hq Hu Hfetch Hok Hbody.
  assert (Searcher.search ARGS http (grd p) st1
          = (Raise (SystemExit 1), st2)) as Hsearch.
  { rewrite search_cases, Hskip, Hq, Hu, Hfetch.
    unfold after_fetch. by rewrite Hok, Hbody. }
  assert (main_loop ARGS http grd (ps1 ++ p :: ps2)
            (get_download_history st0).2
          = (Raise (SystemExit 1), st2)) as Habort.
  { rewrite main_loop_app, Hloop. simpl. unfold bindM, iteration.
    unfold Searcher.search_query_of in Hq.
    destruct (title (guessed_data (grd p))); [|done].
    unfold bindM. by rewrite Hsearch. }
  destruct (main_abort _ _ _ _ _ _ _ Habort) as [Hmain Hhf].
  pose proof (fetch_frame ARGS http u (grd p) st1) as (Hh & Hf & _).
  rewrite Hfetch in Hh, Hf. simpl in Hh, Hf.
  rewrite Hmain. done.
Qed.

(** ** Reasoning on the matcher *)

Lemma chars_app (a b : string) : chars (a +:+ b) = chars a ++ chars b.
Proof. induction a as [|c a IH]; simpl; [done | by rewrite IH]. Qed.

Lemma chars_inj (a b : string) : chars a = chars b → a = b.
Proof.
  intros H. rewrite <- (String.string_of_list_ascii_of_string a),
    <- (String.string_of_list_ascii_of_string b). unfold chars in H.
  by rewrite H.
Qed.

Lemma chars_of_list (l : list ascii) :
  chars (String.string_of_list_ascii l) = l.
Proof. apply String.list_ascii_of_string_of_list_ascii. Qed.

Lemma of_chars (s : string) : String.string_of_list_ascii (chars s) = s.
Proof. apply String.string_of_list_ascii_of_string. Qed.

Lemma chars_length (s : string) : length (chars s) = String.length s.
Proof. induction s; simpl; [done | by f_equal]. Qed.

Module ReFacts.
Import Re.

(** All the characters of [l] are in the class. *)
(** A pattern that begins with [^] matches at position 0 or nowhere. *)
Lemma search_from_bol_S (r : regex) (pos : nat) (s : list ascii) :
  search_from (Seq Bol r) (S pos) s = None.
Proof.
  revert pos. induction s as [|c s IH]; intros pos; simpl; [done|].
  apply IH.
Qed.

Lemma search_from_bol (r : regex) (s : list ascii) :
  search_from (Seq Bol r) 0 s = run r 0 s [] accept.
Proof.
  destruct s as [|c s]; simpl.
  - by destruct (run r 0 [] [] accept).
  - destruct (run r 0 (c :: s) [] accept); [done|].
    apply search_from_bol_S.
Qed.

(** A greedy star that can take all of [a] and no more, and whose
    continuation accepts there, stops there. *)
Lemma star_greedy_max (cl : charclass) (pos : nat) (a r : list ascii)
    (caps : captures) (k : cont) (m : captures) :
  all_in cl a →
  match r with [] => True | c :: _ => in_class cl c = false end →
  k (pos + length a) r caps = Some m →
  star true cl pos (a ++ r) caps k = Some m.
Proof.
  intros Ha Hr. revert pos. induction Ha as [|x a Hx Ha IH]; intros pos Hk.
  - simpl in *. rewrite Nat.add_0_r in Hk.
    destruct r as [|c r]; simpl; [done | by rewrite Hr].
  - simpl. rewrite Hx. rewrite IH; [done|].
    simpl in Hk. by rewrite Nat.add_succ_r in Hk.
Qed.

(** Where a star succeeds, its continuation succeeded after some prefix
    of class characters. *)
Lemma star_some_inv (g : bool) (cl : charclass) (pos : nat)
    (s : list ascii) (caps : captures) (k : cont) (m : captures) :
  star g cl pos s caps k = Some m →
  ∃ j, j ≤ length s ∧ all_in cl (take j s)
       ∧ k (pos + j) (drop j s) caps = Some m.
Proof.
  revert pos. induction s as [|c s IH]; intros pos; simpl.
  - intros Hk. exists 0. rewrite Nat.add_0_r.
    split_and!; [done | apply Forall_nil_2 | done].
  - assert (k pos (c :: s) caps = Some m →
            ∃ j, j ≤ S (length s) ∧ all_in cl (take j (c :: s))
                 ∧ k (pos + j) (drop j (c :: s)) caps = Some m) as Hhere.
    { intros Hk. exists 0. rewrite Nat.add_0_r.
      split_and!; [lia | apply Forall_nil_2 | done]. }
    assert (in_class cl c = true →
            star g cl (S pos) s caps k = Some m →
            ∃ j, j ≤ S (length s) ∧ all_in cl (take j (c :: s))
                 ∧ k (pos + j) (drop j (c :: s)) caps = Some m) as Hnext.
    { intros Hc Hs. destruct (IH _ Hs) as (j & Hj & Hall & Hk).
      exists (S j). simpl. rewrite Nat.add_succ_r.
      split_and!; [lia | by apply Forall_cons | done]. }
    destruct (in_class cl c) eqn:Hc; [|done].
    destruct g.
    + destruct (star true cl (S pos) s caps k) eqn:Hs.
      * intros [= <-]. by apply Hnext.
      * done.
    + destruct (k pos (c :: s) caps) eqn:Hk.
      * intros [= <-]. by apply Hhere.
      * by apply Hnext.
Qed.

(** A star succeeds as soon as its continuation succeeds after some
    prefix of class characters. *)
Lemma star_is_Some (g : bool) (cl : charclass) (pos j : nat)
    (s : list ascii) (caps : captures) (k : cont) :
  j ≤ length s → all_in cl (take j s) →
  is_Some (k (pos + j) (drop j s) caps) →
  is_Some (star g cl pos s caps k).
Proof.
  revert pos j. induction s as [|c s IH]; intros pos j Hj Hall Hk.
  - simpl in *. assert (j = 0) as -> by lia.
    by rewrite Nat.add_0_r in Hk.
  - simpl. destruct j as [|j].
    + simpl in Hk. rewrite Nat.add_0_r in Hk.
      destruct (in_class cl c); [|done]. destruct g.
      * by destruct (star true cl (S pos) s caps k).
      * destruct (k pos (c :: s) caps); [done|]. by destruct Hk.
    + simpl in Hall, Hk, Hj. apply Forall_cons in Hall as [Hc Hall].
      rewrite Hc. rewrite Nat.add_succ_r in Hk.
      assert (is_Some (star g cl (S pos) s caps k)) as [m Hm].
      { apply (IH (S pos) j); [lia | done | done]. }
      destruct g.
      * by rewrite Hm.
      * rewrite Hm. by destruct (k pos (c :: s) caps).
Qed.

(** A lazy star stops at the first prefix after which its continuation
    succeeds. *)
Lemma star_lazy_inv (cl : charclass) (pos : nat) (s : list ascii)
    (caps : captures) (k : cont) (m : captures) :
  star false cl pos s caps k = Some m →
  ∃ j, j ≤ length s ∧ all_in cl (take j s)
       ∧ k (pos + j) (drop j s) caps = Some m
       ∧ ∀ i, i < j → k (pos + i) (drop i s) caps = None.
Proof.
  revert pos. induction s as [|c s IH]; intros pos; simpl.
  - intros Hk. exists 0. rewrite Nat.add_0_r.
    split_and!; [done | apply Forall_nil_2 | done | lia].
  - destruct (k pos (c :: s) caps) as [m'|] eqn:Hk.
    { intros Hm. exists 0. rewrite Nat.add_0_r.
      split_and!; [lia | apply Forall_nil_2 | | lia].
      simpl. destruct (in_class cl c); congruence. }
    destruct (in_class cl c) eqn:Hc; [|done].
    intros Hs. destruct (IH _ Hs) as (j & Hj & Hall & Hkj & Hmin).
    exists (S j). simpl. rewrite Nat.add_succ_r.
    split_and!; [lia | by apply Forall_cons | done |].
    intros [|i] Hi; simpl.
    + by rewrite Nat.add_0_r.
    + rewrite Nat.add_succ_r. apply Hmin. lia.
Qed.

(** A literal string matches only itself. *)
Lemma run_Str_some (lit : list ascii) (r : regex) (pos : nat)
    (s : list ascii) (caps : captures) (k : cont) (m : captures) :
  run (Str lit r) pos s caps k = Some m →
  ∃ s', s = lit ++ s' ∧ run r (pos + length lit) s' caps k = Some m.
Proof.
  revert pos s. induction lit as [|c lit IH]; intros pos s; simpl.
  - intros H. exists s. by rewrite Nat.add_0_r.
  - destruct s as [|x s]; [done|].
    destruct (Ascii.eqb_spec x c) as [->|]; [|done].
    intros H. apply IH in H as (s' & -> & H). exists s'.
    by rewrite Nat.add_succ_r.
Qed.

Lemma all_in_CNot (c : ascii) (l : list ascii) :
  c ∉ l → all_in (CNot c) l.
Proof.
  intros Hc. apply Forall_forall. intros x Hx. simpl.
  destruct (Ascii.eqb_spec x c) as [->|]; [done | done].
Qed.

Lemma all_in_CAny (l : list ascii) : LF ∉ l → all_in CAny l.
Proof.
  intros Hc. apply Forall_forall. intros x Hx. simpl.
  destruct (Ascii.eqb_spec x LF) as [->|]; [done | done].
Qed.

Lemma group_cons_mono (caps : captures) (i j : nat) (v : list ascii) :
  is_Some (group caps i) → is_Some (group ((j, v) :: caps) i).
Proof. intros H. simpl. by destruct (Nat.eqb j i). Qed.

(** A successful run has run its continuation, with all the groups that
    were closed before still closed. *)
Lemma run_some_inv (r : regex) (pos : nat) (s : list ascii)
    (caps : captures) (k : cont) (m : captures) :
  run r pos s caps k = Some m →
  ∃ pos' s' caps',
    k pos' s' caps' = Some m
    ∧ (∀ i, is_Some (group caps i) → is_Some (group caps' i))
    ∧ (∀ i, sets_group i r = true → is_Some (group caps' i)).
Proof.
  revert pos s caps k m.
  induction r as [| |c|cl|r1 IH1 r2 IH2|r1 IH1|g cl|j r1 IH1];
    intros pos s caps k m; simpl.
  - destruct (Nat.eqb pos 0); [|done]. intros H. by eexists _, _, _.
  - destruct s as [|c [|c' s]]; try done.
    + intros H. by eexists _, _, _.
    + destruct (Ascii.eqb c LF); [|done]. intros H. by eexists _, _, _.
  - destruct s as [|x s]; [done|]. destruct (Ascii.eqb x c); [|done].
    intros H. by eexists _, _, _.
  - destruct s as [|x s]; [done|]. destruct (in_class cl x); [|done].
    intros H. by eexists _, _, _.
  - intros H. apply IH1 in H as (p1 & s1 & c1 & H & Hm1 & Hs1).
    apply IH2 in H as (p2 & s2 & c2 & H & Hm2 & Hs2).
    exists p2, s2, c2. split_and!; [done | by auto |].
    intros i [Hi|Hi]%orb_true_iff; [by auto | by auto].
  - destruct (run r1 pos s caps k) as [m'|] eqn:Hr.
    + intros [= ->]. apply IH1 in Hr as (p1 & s1 & c1 & H & Hm1 & _).
      by exists p1, s1, c1.
    + intros H. by eexists _, _, _.
  - intros H. apply ReFacts.star_some_inv in H as (j & _ & _ & H).
    by eexists _, _, _.
  - intros H. apply IH1 in H as (p1 & s1 & c1 & H & Hm1 & Hs1).
    eexists _, _, _. split_and!; [exact H | |].
    + intros i Hi. by apply group_cons_mono, Hm1.
    + intros i [Hi|Hi]%orb_true_iff.
      * apply Nat.eqb_eq in Hi as ->. simpl. by rewrite Nat.eqb_refl.
      * by apply group_cons_mono, Hs1.
Qed.

Lemma search_from_group (r : regex) (i : nat) (s : list ascii)
    (m : captures) :
  sets_group i r = true →
  search_from (Seq Bol r) 0 s = Some m → is_Some (group m i).
Proof.
  intros Hi. rewrite ReFacts.search_from_bol. intros H.
  apply run_some_inv in H as (p & s' & c & [= ->] & _ & Hs). by apply Hs.
Qed.

End ReFacts.

(** ** The url path *)


Lemma group1_tail (pos : nat) (r : list ascii) (c : ascii) :
  take (S pos + length r - pos) (c :: r) = c :: r.
Proof.
  replace (S pos + length r - pos) with (length (c :: r)) by (simpl; lia).
  apply firstn_all.
Qed.

(** On [scheme://authority/rest] group 1 is [/rest]: the authority is all
    that [[^/]+] can take, and [.+] runs to the end. *)
Lemma url_path_re_match (https : bool) (a r : list ascii) :
  a ≠ [] → Re.all_in (Re.CNot "/") a → Re.all_in Re.CAny r →
  Re.search_from url_path_re 0
    (chars (scheme https) ++ chars "://" ++ a ++ "/"%char :: r)
  = Some [(1, "/"%char :: r)].
Proof.
  intros Hne Ha Hr. unfold url_path_re. rewrite ReFacts.search_from_bol.
  destruct a as [|x a]; [done|]. apply Forall_cons in Ha as [Hx Ha].
  assert (∀ pos,
    Re.star true (Re.CNot "/") pos (a ++ "/"%char :: r) []
      (λ (pos' : nat) (s' : list ascii) (caps' : Re.captures),
         match s' with
         | [] => None
         | x0 :: s'0 =>
             if negb (x0 =? Re.LF)%char
             then
              Re.star true Re.CAny (S pos') s'0 caps'
                (λ (pos'0 : nat) (s'1 : list ascii) (caps'0 : Re.captures),
                   Re.accept pos'0 s'1
                     ((1, take (pos'0 - pos') s') :: caps'0))
             else None
         end) = Some [(1, "/"%char :: r)]) as Hstar.
  { intros pos. apply ReFacts.star_greedy_max; [done | done |].
    simpl. rewrite <- (app_nil_r r) at 1.
    apply ReFacts.star_greedy_max; [done | done |].
    unfold Re.accept. by rewrite group1_tail. }
  destruct https; simpl; simpl in Hx; rewrite Hx, Hstar; done.
Qed.

(** The pattern matches only after [http://] or [https://], and needs two
    characters there: one for [[^/]+], one for [(.+)]. *)
Lemma url_path_re_some_inv (s : list ascii) (m : Re.captures) :
  Re.search_from url_path_re 0 s = Some m →
  ∃ https rest,
    s = chars (scheme https) ++ chars "://" ++ rest ∧ 2 ≤ length rest.
Proof.
  unfold url_path_re. rewrite ReFacts.search_from_bol.
  intros H. apply ReFacts.run_Str_some in H as (s1 & -> & H).
  revert H.
  assert (∀ pos s2 m,
    Re.run (Re.Str (chars "://")
              (Re.Seq (Re.Plus true (Re.CNot "/"))
                      (Re.Group 1 (Re.Plus true Re.CAny))))
      pos s2 [] Re.accept = Some m →
    ∃ rest, s2 = chars "://" ++ rest ∧ 2 ≤ length rest) as Hrest.
  { clear. intros pos s2 m H2.
    apply ReFacts.run_Str_some in H2 as (rest & -> & H2).
    exists rest. split; [done|]. simpl in H2.
    destruct rest as [|x rest]; [done|].
    destruct (negb (x =? "/")%char); [|done].
    apply ReFacts.star_some_inv in H2 as (j & Hj & _ & H2).
    destruct (drop j rest) as [|y z] eqn:Hd; [done|].
    simpl. destruct rest; [by rewrite drop_nil in Hd | simpl; lia]. }
  set (tail := Re.Str (chars "://") _) in *.
  intros H.
  change (match
            match s1 with
            | [] => None
            | x :: s' =>
                if Ascii.eqb x "s" then Re.run tail 5 s' [] Re.accept
                else None
            end
          with
          | Some m' => Some m'
          | None => Re.run tail 4 s1 [] Re.accept
          end = Some m) in H.
  destruct s1 as [|x s1].
  - apply Hrest in H as (rest & Hs & _). done.
  - destruct (Ascii.eqb_spec x "s") as [->|Hne].
    + destruct (Re.run tail 5 s1 [] Re.accept) eqn:HX.
      * apply Hrest in HX as (rest & -> & Hlen).
        by exists true, rest.
      * apply Hrest in H as (rest & Hs & _). done.
    + apply Hrest in H as (rest & -> & Hlen). by exists false, rest.
Qed.

Lemma url_path_well_formed (https : bool) (a r : string) :
  a ≠ "" → "/"%char ∉ chars a → Re.LF ∉ chars r →
  url_path (scheme https +:+ "://" +:+ a +:+ String "/" r)
  = Ok (String "/" r).
Proof.
  intros Hne Ha Hr. unfold url_path, Re.search.
  change String.list_ascii_of_string with chars.
  rewrite !chars_app.
  change (chars (String "/" r)) with ("/"%char :: chars r).
  rewrite url_path_re_match.
  - simpl. by rewrite of_chars.
  - destruct a; [done | done].
  - by apply ReFacts.all_in_CNot.
  - by apply ReFacts.all_in_CAny.
Qed.

Lemma url_path_raises (url : string) :
  (¬ ∃ https rest,
       url = scheme https +:+ "://" +:+ rest ∧ 2 ≤ String.length rest) →
  url_path url = Raise AttributeError.
Proof.
  intros Hshape. unfold url_path, Re.search.
  destruct (Re.search_from url_path_re 0 _) as [m|] eqn:Hm; [|done].
  exfalso. apply Hshape.
  apply url_path_re_some_inv in Hm as (https & rest & Hs & Hlen).
  exists https, (String.string_of_list_ascii rest). split.
  - apply chars_inj. rewrite !chars_app, chars_of_list. done.
  - by rewrite <- chars_length, chars_of_list.
Qed.

(** Group 1 of the two patterns is in no optional part: a match has it. *)
Lemma url_path_re_group1 (s : list ascii) (m : Re.captures) :
  Re.search_from url_path_re 0 s = Some m → is_Some (Re.group m 1).
Proof. by apply ReFacts.search_from_group. Qed.

Lemma release_name_re_group1 (s : list ascii) (m : Re.captures) :
  Re.search_from release_name_re 0 s = Some m → is_Some (Re.group m 1).
Proof. by apply ReFacts.search_from_group. Qed.

Lemma url_path_not_TypeError (url : string) : url_path url ≠ Raise TypeError.
Proof.
  unfold url_path, Re.search, Re.group_str.
  destruct (Re.search_from url_path_re 0 _) as [m|] eqn:Hm; [|done].
  apply url_path_re_group1 in Hm as [g ->]. done.
Qed.

(** ** The history entries of a url path *)

Lemma append_to_download_history_ok (url tid p : string) (h : history) :
  url_path url = Ok p →
  ∃ h1 paths,
    HistoryManager.append_to_download_history url tid h = Ok h1
    ∧ basenames_searched h1 = basenames_searched h
    ∧ download_history h1 !! tid = Some paths
    ∧ p ∈ paths.
Proof.
  intros Hp. unfold HistoryManager.append_to_download_history.
  rewrite Hp. simpl.
  destruct (download_history h !! tid) as [paths|] eqn:Hlook.
  - rewrite Hlook. simpl.
    destruct (HistoryManager.str_in p paths) eqn:Hin.
    + apply str_in_spec in Hin. by eexists _, paths.
    + eexists _, (paths ++ [p]). split_and!; [done | done | |].
      * simpl. apply lookup_insert_eq.
      * apply elem_of_app. right. by left.
  - rewrite lookup_insert_eq. simpl.
    eexists _, [p]. split_and!; [done | done | | by left].
    simpl. apply lookup_insert_eq.
Qed.

Lemma append_to_download_history_idem (url tid p : string) (h : history)
    (paths : list string) :
  url_path url = Ok p →
  download_history h !! tid = Some paths →
  p ∈ paths →
  HistoryManager.append_to_download_history url tid h = Ok h.
Proof.
  intros Hp Hlook Hin. unfold HistoryManager.append_to_download_history.
  rewrite Hp. simpl. rewrite !Hlook. simpl.
  apply str_in_spec in Hin. rewrite Hin. by destruct h.
Qed.

Lemma is_torrent_previously_grabbed_true (c : candidate) (p : string)
    (h : history) (paths : list string) :
  url_path (Details c) = Ok p →
  download_history h !! TrackerId c = Some paths →
  p ∈ paths →
  HistoryManager.is_torrent_previously_grabbed c h = Ok true.
Proof.
  intros Hp Hlook Hin. unfold HistoryManager.is_torrent_previously_grabbed.
  rewrite Hp. simpl. rewrite Hlook.
  apply grabbed_loop_spec in Hin. by rewrite Hin.
Qed.

(** C5 (amended). A details url [scheme://authority/rest] (scheme http or
    https, a non-empty authority without [/], then a [/], no line feed in
    the rest) normalises to [/rest]; so two such details urls that differ
    only in scheme and authority have the same path, and once one is
    appended to the download history of a tracker the other is found
    previously grabbed there and appending it changes nothing.  In
    particular the two urls of the specification both normalise to
    [/details?id=55]. *)
Theorem C5_details_url_normalization (https1 https2 : bool)
    (a1 a2 r tid : string) (h : history) (c : candidate) :
  a1 ≠ "" → a2 ≠ "" →
  "/"%char ∉ chars a1 → "/"%char ∉ chars a2 →
  Re.LF ∉ chars r →
  Details c = scheme https2 +:+ "://" +:+ a2 +:+ String "/" r →
  TrackerId c = tid →
  url_path (scheme https1 +:+ "://" +:+ a1 +:+ String "/" r)
  = Ok (String "/" r)
  ∧ url_path (scheme https2 +:+ "://" +:+ a2 +:+ String "/" r)
    = Ok (String "/" r)
  ∧ (∃ h1,
       HistoryManager.append_to_download_history
         (scheme https1 +:+ "://" +:+ a1 +:+ String "/" r) tid h = Ok h1
       ∧ HistoryManager.is_torrent_previously_grabbed c h1 = Ok true
       ∧ HistoryManager.append_to_download_history
           (scheme https2 +:+ "://" +:+ a2 +:+ String "/" r) tid h1
         = Ok h1)
  ∧ url_path "http://tracker1.example/details?id=55" = Ok "/details?id=55"
  ∧ url_path "http://mirror9.example/details?id=55" = Ok "/details?id=55".
Proof.
  intros Hne1 Hne2 Ha1 Ha2 Hr Hdet Htid.
  pose proof (url_path_well_formed https1 a1 r Hne1 Ha1 Hr) as Hp1.
  pose proof (url_path_well_formed https2 a2 r Hne2 Ha2 Hr) as Hp2.
  split_and!; [done | done | | by vm_compute | by vm_compute].
  destruct (append_to_download_history_ok _ tid _ h Hp1)
    as (h1 & paths & Happ & _ & Hlook & Hin).
  exists h1. split_and!; [done | |].
  - apply (is_torrent_previously_grabbed_true c (String "/" r) h1 paths);
      [by rewrite Hdet | by rewrite Htid | done].
  - by apply (append_to_download_history_idem _ _ (String "/" r) _ paths).
Qed.

(** C10 (amended). For a details url that does not consist of [http://]
    or [https://] followed by at least two characters, the pattern does not
    match, and both the history lookup and the history append raise the
    error of the absent match instead of skipping the candidate. *)
Theorem C10_unmatched_details_url_raises (url tid : string) (c : candidate)
    (h : history) :
  (¬ ∃ https rest,
       url = scheme https +:+ "://" +:+ rest ∧ 2 ≤ String.length rest) →
  Details c = url →
  url_path url = Raise AttributeError
  ∧ HistoryManager.is_torrent_previously_grabbed c h = Raise AttributeError
  ∧ HistoryManager.append_to_download_history url tid h
    = Raise AttributeError.
Proof.
  intros Hshape Hdet. pose proof (url_path_raises url Hshape) as Hp.
  unfold HistoryManager.is_torrent_previously_grabbed,
    HistoryManager.append_to_download_history.
  rewrite Hdet, Hp. done.
Qed.

(** ** The release name *)

Lemma at_eol_inv (pos : nat) (u : list ascii) (caps m : Re.captures) :
  Re.LF ∉ u → at_eol pos u caps = Some m → u = [] ∧ m = caps.
Proof.
  intros Hlf. unfold at_eol. simpl. destruct u as [|c [|c' u]]; try done.
  - by intros [= <-].
  - destruct (Ascii.eqb_spec c Re.LF) as [->|]; [|done].
    exfalso. apply Hlf. by left.
Qed.

Lemma annot_re_inv (pos : nat) (u : list ascii) (caps m : Re.captures) :
  Re.LF ∉ u →
  Re.run annot_re pos u caps at_eol = Some m →
  annot u ∧ Re.group m 1 = Re.group caps 1.
Proof.
  intros Hlf. unfold annot_re. simpl.
  destruct u as [|c0 [|c1 u]]; try done.
  { by destruct (c0 =? " ")%char. }
  destruct (Ascii.eqb_spec c0 " ") as [->|]; [|done].
  destruct (Ascii.eqb_spec c1 "[") as [->|]; [|done].
  intros Hs. apply ReFacts.star_some_inv in Hs as (j & Hj & _ & Hs).
  destruct (drop j u) as [|c2 u2] eqn:Hd; [done|].
  destruct (Ascii.eqb_spec c2 "/") as [->|]; [|done].
  apply ReFacts.star_some_inv in Hs as (j2 & Hj2 & _ & Hs).
  destruct (drop j2 u2) as [|c3 u3] eqn:Hd2; [done|].
  destruct (Ascii.eqb_spec c3 "]") as [->|]; [|done].
  assert (u = take j u ++ "/"%char :: take j2 u2 ++ "]"%char :: u3) as Hu.
  { rewrite <- (take_drop j u) at 1. rewrite Hd.
    rewrite <- (take_drop j2 u2) at 1. by rewrite Hd2. }
  assert (Re.LF ∉ u3) as Hlf3.
  { intros Hin. apply Hlf. rewrite Hu.
    do 2 right. apply elem_of_app. right. right.
    apply elem_of_app. right. by right. }
  apply at_eol_inv in Hs as [-> ->]; [|done].
  split; [|done]. exists (take j u), (take j2 u2). by rewrite <- Hu.
Qed.

Lemma annot_re_complete (pos : nat) (u : list ascii) (caps : Re.captures) :
  Re.LF ∉ u → annot u →
  is_Some (Re.run annot_re pos u caps at_eol).
Proof.
  intros Hlf (x & y & ->). unfold annot_re. simpl.
  assert ((Re.LF ∉ x) ∧ (Re.LF ∉ y)) as [Hx Hy].
  { split; intros Hin; apply Hlf; right; right; apply elem_of_app.
    - by left.
    - right. right. apply elem_of_app. by left. }
  apply (ReFacts.star_is_Some _ _ _ (length x)).
  - rewrite length_app. lia.
  - rewrite take_app_length. by apply ReFacts.all_in_CAny.
  - rewrite drop_app_length. simpl.
    apply (ReFacts.star_is_Some _ _ _ (length y)).
    + rewrite length_app. lia.
    + rewrite take_app_length. by apply ReFacts.all_in_CAny.
    + rewrite drop_app_length. simpl. done.
Qed.

Lemma tail_re_unfold (pos : nat) (u : list ascii) (caps : Re.captures) :
  Re.run tail_re pos u caps Re.accept
  = match Re.run annot_re pos u caps at_eol with
    | Some m => Some m
    | None => at_eol pos u caps
    end.
Proof. done. Qed.

Lemma tail_re_inv (pos : nat) (u : list ascii) (caps m : Re.captures) :
  Re.LF ∉ u →
  Re.run tail_re pos u caps Re.accept = Some m →
  (u = [] ∨ annot u) ∧ Re.group m 1 = Re.group caps 1.
Proof.
  intros Hlf. rewrite tail_re_unfold.
  destruct (Re.run annot_re pos u caps at_eol) as [m'|] eqn:Ha.
  - intros [= ->]. apply annot_re_inv in Ha as [? ?]; [|done].
    split; [by right | done].
  - intros [-> ->]%at_eol_inv; [|done]. split; [by left | done].
Qed.

Lemma tail_re_complete (pos : nat) (u : list ascii) (caps : Re.captures) :
  Re.LF ∉ u → u = [] ∨ annot u →
  is_Some (Re.run tail_re pos u caps Re.accept).
Proof.
  intros Hlf Hu. rewrite tail_re_unfold.
  destruct (Re.run annot_re pos u caps at_eol) as [m'|] eqn:Ha; [done|].
  destruct Hu as [-> | Hannot]; [done|].
  pose proof (annot_re_complete pos u caps Hlf Hannot) as Hsome.
  rewrite Ha in Hsome. by destruct Hsome.
Qed.

(** The match of [release_name_re] on a title without line feed: group 1
    ends at the first position, after at least one character, where the
    rest is empty or an annotation. *)
Lemma release_name_re_match (t : list ascii) :
  Re.LF ∉ t → t ≠ [] →
  ∃ j m,
    Re.search_from release_name_re 0 t = Some m
    ∧ Re.group m 1 = Some (take j t)
    ∧ 1 ≤ j ≤ length t
    ∧ (j = length t ∨ annot (drop j t))
    ∧ ∀ i, 1 ≤ i < j → ¬ annot (drop i t).
Proof.
  intros Hlf Hne. unfold release_name_re. rewrite ReFacts.search_from_bol.
  change (Re.Seq (Re.Opt _) Re.Eol) with tail_re.
  destruct t as [|c t]; [done|].
  assert (c ≠ Re.LF ∧ Re.LF ∉ t) as [Hc Ht].
  { split; [intros -> | intros Hin]; apply Hlf; [by left | by right]. }
  set (k := λ (pos' : nat) (s' : list ascii) (caps' : Re.captures),
              Re.run tail_re pos' s' ((1, take (pos' - 0) (c :: t)) :: caps')
                Re.accept).
  change (Re.run _ 0 (c :: t) [] Re.accept)
    with (if Re.in_class Re.CAny c then Re.star false Re.CAny 1 t [] k
          else None).
  assert (Re.in_class Re.CAny c = true) as ->.
  { simpl. by destruct (Ascii.eqb_spec c Re.LF). }
  assert (∀ i, i ≤ length t → Re.LF ∉ drop i t) as Hdrop.
  { intros i _ Hin. apply Ht. rewrite <- (take_drop i t).
    apply elem_of_app. by right. }
  assert (is_Some (Re.star false Re.CAny 1 t [] k)) as [m Hm].
  { apply (ReFacts.star_is_Some _ _ _ (length t)); [done | |].
    - rewrite firstn_all. by apply ReFacts.all_in_CAny.
    - unfold k. apply tail_re_complete; [by apply Hdrop|].
      left. by rewrite drop_all. }
  rewrite Hm.
  apply ReFacts.star_lazy_inv in Hm as (j & Hj & _ & Hk & Hmin).
  exists (S j), m. unfold k in Hk.
  apply tail_re_inv in Hk as [Hshape Hg]; [|by apply Hdrop].
  split_and!; [done | | lia | simpl; lia | |].
  - rewrite Hg. simpl. done.
  - simpl. destruct Hshape as [Hnil | Hannot]; [left | by right].
    f_equal. apply (f_equal length) in Hnil. rewrite length_drop in Hnil.
    simpl in Hnil. lia.
  - intros [|i] [Hi1 Hi2]; [lia|]. simpl. intros Hannot.
    assert (i < j) as Hlt by lia. specialize (Hmin i Hlt). unfold k in Hmin.
    assert (is_Some (Re.run tail_re (1 + i) (drop i t)
                       [(1, take (1 + i - 0) (c :: t))] Re.accept)) as Hs.
    { apply tail_re_complete; [apply Hdrop; lia | by right]. }
    rewrite Hmin in Hs. by destruct Hs.
Qed.



Lemma _reformat_release_name_chars (t : string) (j : nat) (m : Re.captures) :
  Re.search_from release_name_re 0 (chars t) = Some m →
  Re.group m 1 = Some (take j (chars t)) →
  _reformat_release_name t = String.string_of_list_ascii (take j (chars t)).
Proof.
  intros Hm Hg. unfold _reformat_release_name, Re.search, Re.group_str.
  change String.list_ascii_of_string with chars. by rewrite Hm, Hg.
Qed.


(** ** The save path *)

Lemma str_nat_inj (n m : nat) : str_nat n = str_nat m → n = m.
Proof.
  unfold str_nat. intros H.
  apply (f_equal NilEmpty.uint_of_string) in H.
  rewrite !NilEmpty.usu in H. injection H as H.
  apply (f_equal Nat.of_uint) in H. by rewrite !Unsigned.of_to in H.
Qed.

Lemma append_inj_l (a b c : string) : a +:+ b = a +:+ c → b = c.
Proof.
  intros H. apply chars_inj. apply (f_equal chars) in H.
  rewrite !chars_app in H. by apply app_inv_head in H.
Qed.

Lemma append_inj_r (a b c : string) : a +:+ c = b +:+ c → a = b.
Proof.
  intros H. apply chars_inj. apply (f_equal chars) in H.
  rewrite !chars_app in H. by apply app_inv_tail in H.
Qed.

Lemma numbered_inj (filename ext : string) (n m : nat) :
  numbered filename ext n = numbered filename ext m → n = m.
Proof.
  unfold numbered. intros H. apply append_inj_l, append_inj_l in H.
  apply str_nat_inj.
  assert (str_nat n +:+ (")" +:+ ext) = str_nat m +:+ (")" +:+ ext)) as H'
    by done.
  by apply append_inj_r in H'.
Qed.

Lemma splitext_join (p : string) :
  (splitext p).1 +:+ (splitext p).2 = p.
Proof.
  unfold splitext.
  destruct (_ <? _)%Z; simpl.
  2:{ apply chars_inj. rewrite chars_app. simpl. apply app_nil_r. }
  destruct (existsb _ _); simpl.
  - apply chars_inj. rewrite chars_app, !chars_of_list. apply take_drop.
  - apply chars_inj. rewrite chars_app. simpl. apply app_nil_r.
Qed.

Lemma tried_inj (file_path : string) (i j : nat) :
  let '(filename, ext) := splitext file_path in
  tried file_path filename ext i = tried file_path filename ext j → i = j.
Proof.
  pose proof (splitext_join file_path) as Hjoin.
  destruct (splitext file_path) as [filename ext]. simpl in Hjoin.
  assert (∀ n, file_path ≠ numbered filename ext n) as Hne.
  { intros n H. rewrite <- Hjoin in H. unfold numbered in H.
    apply append_inj_l in H. apply (f_equal String.length) in H.
    rewrite <- !chars_length, !chars_app, !length_app in H. simpl in H. lia. }
  destruct i as [|i], j as [|j]; simpl; try done.
  - intros H. by apply Hne in H.
  - intros H. symmetry in H. by apply Hne in H.
  - apply numbered_inj.
Qed.

Lemma _validate_path_loop_spec (fs : list string) (file_path : string)
    (fuel i : nat) :
  let '(filename, ext) := splitext file_path in
  (∀ j, j < i → tried file_path filename ext j ∈ fs) →
  length fs < i + fuel →
  ∃ m, i ≤ m
       ∧ Downloader._validate_path_loop fuel fs filename ext
           (tried file_path filename ext i) (S i)
         = Some (tried file_path filename ext m)
       ∧ (tried file_path filename ext m ∉ fs)
       ∧ ∀ j, j < m → tried file_path filename ext j ∈ fs.
Proof.
  pose proof (tried_inj file_path) as Hinj.
  destruct (splitext file_path) as [filename ext].
  revert i. induction fuel as [|fuel IH]; intros i Hvis Hfuel.
  - exfalso.
    assert (length (tried file_path filename ext <$> seq 0 i) ≤ length fs)
      as Hlen.
    { apply submseteq_length, NoDup_submseteq.
      - apply NoDup_fmap_2_strong; [|apply NoDup_seq].
        intros a b _ _. apply Hinj.
      - intros x (j & -> & Hj)%list_elem_of_fmap.
        apply elem_of_seq in Hj. apply Hvis. lia. }
    rewrite length_fmap, length_seq in Hlen. lia.
  - simpl. destruct (isfile fs (tried file_path filename ext i)) eqn:Hf.
    + apply isfile_spec in Hf.
      destruct (IH (S i)) as (m & Hm & Hloop & Hfree & Hbefore).
      * intros j Hj. destruct (decide (j = i)) as [->|]; [done|].
        apply Hvis. lia.
      * lia.
      * exists m. split_and!; [lia | done | done | done].
    + exists i. split_and!; [done | done | | done].
      intros Hin. apply isfile_spec in Hin. congruence.
Qed.

(** The fuel of [_validate_path] is enough: the loop ends. *)
Lemma _validate_path_total (fs : list string) (file_path : string) :
  ∃ p, Downloader._validate_path fs file_path = Some p.
Proof.
  unfold Downloader._validate_path.
  pose proof (_validate_path_loop_spec fs file_path (S (length fs)) 0) as H.
  destruct (splitext file_path) as [filename ext].
  destruct H as (m & _ & Hloop & _); [intros j; lia | lia |].
  by eexists.
Qed.

(** C8. The save path is the path itself when no file has it; otherwise it
    is [filename (n)ext], where [filename] and [ext] are the two parts of
    the path, for the first [n] from 1 on whose name no file has.  The
    search always ends.  With [Name.torrent] present the result is
    [Name (1).torrent], and [Name (2).torrent] when that is present too. *)
Theorem C8_collision_disambiguation (fs : list string) (file_path : string) :
  (∃ p,
     Downloader._validate_path fs file_path = Some p
     ∧ isfile fs p = false
     ∧ (isfile fs file_path = false → p = file_path)
     ∧ (isfile fs file_path = true →
        ∃ n, 1 ≤ n
             ∧ p = (splitext file_path).1 +:+ " (" +:+ str_nat n +:+ ")"
                   +:+ (splitext file_path).2
             ∧ ∀ i, 1 ≤ i < n →
                    isfile fs ((splitext file_path).1 +:+ " (" +:+ str_nat i
                               +:+ ")" +:+ (splitext file_path).2) = true))
  ∧ splitext "Name.torrent" = ("Name", ".torrent")
  ∧ Downloader._validate_path ["Name.torrent"] "Name.torrent"
    = Some "Name (1).torrent"
  ∧ Downloader._validate_path ["Name.torrent"; "Name (1).torrent"]
      "Name.torrent"
    = Some "Name (2).torrent".
Proof.
  split_and!; [| by vm_compute | by vm_compute | by vm_compute].
  unfold Downloader._validate_path.
  pose proof (_validate_path_loop_spec fs file_path (S (length fs)) 0) as H.
  destruct (splitext file_path) as [filename ext]. simpl.
  destruct H as (m & _ & Hloop & Hfree & Hbefore); [intros j; lia | lia |].
  exists (tried file_path filename ext m).
  split_and!; [done | | |].
  - destruct (isfile fs _) eqn:Hf; [|done]. by apply isfile_spec in Hf.
  - intros Hf. destruct m as [|m]; [done|].
    specialize (Hbefore 0 ltac:(lia)). apply isfile_spec in Hbefore.
    simpl in Hbefore. congruence.
  - intros Hf. destruct m as [|m].
    { apply isfile_spec in Hf. done. }
    exists (S m). split_and!; [lia | done |].
    intros [|i] [Hi1 Hi2]; [lia|]. apply isfile_spec.
    apply (Hbefore (S i)). lia.
Qed.

(** ** The properties at concrete inputs *)

Lemma C2_size_tolerance_witness :
  size movie_release = Some 1000%Z
  ∧ ∃ out,
      Searcher._get_matching_results ARGS_default
        [mirror_candidate; far_candidate] movie_release = Ok out
      ∧ out = [mirror_candidate].
Proof.
  split; [reflexivity|].
  destruct (C2_size_tolerance ARGS_default movie_release 1000
              [mirror_candidate; far_candidate])
    as (out & Hres & Hout & _); [reflexivity|].
  exists out. split; [exact Hres|]. rewrite Hout. vm_compute. reflexivity.
Defined.

Lemma C1_basename_recorded_witness :
  ignore_history ARGS_ignore_history = true
  ∧ ∃ out st',
      Searcher.search ARGS_ignore_history http_no_result movie_release
        fresh_state = (Ok out, st')
      ∧ basename movie_release ∈ basenames_searched (search_history st').
Proof.
  split; [reflexivity|].
  edestruct (C1_basename_recorded ARGS_ignore_history http_no_result
               movie_release fresh_state)
    as (out & st' & Hs & Hin & _);
    [reflexivity | reflexivity | reflexivity | reflexivity | reflexivity
    | reflexivity |].
  exists out, st'. split; [exact Hs | exact Hin].
Defined.

Lemma C1_counterexample :
  ignore_history ARGS_ignore_history = true
  ∧ basenames_searched (search_history fresh_state) = []
  ∧ (Searcher.search ARGS_ignore_history http_no_result movie_release
       fresh_state).1 = Ok []
  ∧ basenames_searched
      (search_history
         (Searcher.search ARGS_ignore_history http_no_result movie_release
            fresh_state).2)
    = [basename movie_release].
Proof. split_and!; reflexivity. Qed.

Lemma C9_unknown_category_raises_witness :
  gtype (guessed_data other_release) = Some "music"
  ∧ Searcher._get_full_search_url ARGS_default "Some Album" other_release
    = Raise (KeyError "music")
  ∧ Searcher.search ARGS_default http_no_result other_release fresh_state
    = (Raise (KeyError "music"), fresh_state).
Proof.
  split; [reflexivity|].
  destruct (C9_unknown_category_raises ARGS_default http_no_result
              other_release "Some Album" fresh_state)
    as (key & Hurl & Hsearch); [discriminate | discriminate |].
  assert (key = "music") as ->.
  { assert (Raise (KeyError key) = Raise (A := search_url) (KeyError "music"))
      as Heq by (rewrite <- Hurl; reflexivity).
    by injection Heq. }
  split; [exact Hurl|]. apply Hsearch; reflexivity.
Defined.

Lemma some_history_inv : ledger_inv some_history.
Proof.
  split; simpl.
  - apply NoDup_singleton.
  - apply map_Forall_singleton. apply NoDup_singleton.
Qed.

Lemma C6_ledger_invariant_witness :
  ledger_inv some_history
  ∧ ledger_inv
      (search_history
         (Searcher.search ARGS_ignore_history http_no_result movie_release
            (set_history some_history fresh_state)).2)
  ∧ ∀ h',
      HistoryManager.append_to_download_history
        "http://tracker1.example/details?id=55" "tracker1" some_history
      = Ok h' →
      ledger_inv h'.
Proof.
  split; [exact some_history_inv|].
  destruct (C6_ledger_invariant some_history some_history_inv)
    as (Hsearch & Happend & _).
  split.
  - apply Hsearch. reflexivity.
  - intros h'. apply Happend.
Defined.

Lemma C3_no_indexers_aborts_witness :
  let run :=
    main ARGS_default http_no_indexer (fun _ => movie_release)
      ["/media/a"; "/media/b"] (Ok tt)
      {| search_history := empty_history; requests := []; files := [];
         history_file := Some some_history |} in
  run.1 = Raise (SystemExit 1)
  ∧ exit_status run.1 = 1%Z
  ∧ history_file run.2 = Some some_history
  ∧ length (requests run.2) = 1.
Proof.
  intros run.
  edestruct (C3_no_indexers_aborts ARGS_default http_no_indexer
               (fun _ => movie_release) [] ["/media/b"] "/media/a"
               {| search_history := empty_history; requests := [];
                  files := []; history_file := Some some_history |})
    as (Hmain & Hexit & Hhf & _);
    [reflexivity | reflexivity | reflexivity | reflexivity | reflexivity
    | reflexivity | reflexivity |].
  cbn [app] in Hmain. subst run. rewrite Hmain. split_and!; [reflexivity | reflexivity | | reflexivity].
  exact Hhf.
Defined.

Lemma C5_details_url_normalization_witness :
  url_path "https://tracker1.example:8080/details?id=55"
  = Ok "/details?id=55"
  ∧ url_path "http://mirror9.example/details?id=55" = Ok "/details?id=55"
  ∧ ∃ h1,
      HistoryManager.append_to_download_history
        "https://tracker1.example:8080/details?id=55" "tracker1"
        empty_history
      = Ok h1
      ∧ HistoryManager.is_torrent_previously_grabbed mirror_candidate h1
        = Ok true
      ∧ HistoryManager.append_to_download_history
          "http://mirror9.example/details?id=55" "tracker1" h1
        = Ok h1.
Proof.
  destruct (C5_details_url_normalization true false
              "tracker1.example:8080" "mirror9.example" "details?id=55"
              "tracker1" empty_history mirror_candidate)
    as (H1 & H2 & (h1 & Happ & Hgrab & Hidem) & _);
    [discriminate | discriminate
    | by apply (bool_decide_unpack _); vm_compute
    | by apply (bool_decide_unpack _); vm_compute
    | by apply (bool_decide_unpack _); vm_compute
    | reflexivity | reflexivity |].
  split; [exact H1|]. split; [exact H2|].
  exists h1. split; [exact Happ|]. split; [exact Hgrab | exact Hidem].
Defined.

(** What the pattern gives when no [/] follows the authority, or a line
    feed stands in the rest: [[^/]+] gives back its last character to
    [(.+)], and [.] stops at the line feed.  The two urls of
    [org_candidate] and [com_candidate] differ in the host only, yet
    neither path is what follows the authority, the paths differ, and after
    the append of the one the other is not found grabbed and is appended as
    a second entry. *)
Lemma C5_counterexample :
  url_path "http://tracker1.org" = Ok "g"
  ∧ url_path "http://tracker1.com" = Ok "m"
  ∧ url_path "http://tracker1.example?id=55" = Ok "5"
  ∧ url_path ("http://tracker1.example/details" +:+ String Re.LF "id=55")
    = Ok "/details"
  ∧ ∃ h1 h2,
      HistoryManager.append_to_download_history (Details org_candidate)
        (TrackerId org_candidate) empty_history = Ok h1
      ∧ HistoryManager.is_torrent_previously_grabbed com_candidate h1
        = Ok false
      ∧ HistoryManager.append_to_download_history (Details com_candidate)
          (TrackerId com_candidate) h1 = Ok h2
      ∧ download_history h2 !! "tracker1" = Some ["g"; "m"].
Proof.
  split_and!; [by vm_compute | by vm_compute | by vm_compute
              | by vm_compute |].
  eexists. eexists.
  split; [reflexivity|]. split; [by vm_compute|].
  split; [reflexivity|]. by vm_compute.
Qed.

Lemma C10_unmatched_details_url_raises_witness :
  url_path "http://h" = Raise AttributeError
  ∧ HistoryManager.is_torrent_previously_grabbed short_candidate
      some_history = Raise AttributeError
  ∧ HistoryManager.append_to_download_history "http://h" "tracker1"
      some_history = Raise AttributeError.
Proof.
  apply (C10_unmatched_details_url_raises "http://h" "tracker1"
           short_candidate some_history); [|reflexivity].
  intros (https & rest & Hurl & Hlen).
  destruct https; simpl in Hurl; [discriminate|].
  injection Hurl as Hrest. change ("h" = rest) in Hrest. subst rest.
  simpl in Hlen. lia.
Defined.

Lemma C10_counterexample :
  url_path "http://host" = Ok "t"
  ∧ HistoryManager.is_torrent_previously_grabbed host_candidate
      empty_history = Ok false
  ∧ ∃ h',
      HistoryManager.append_to_download_history "http://host" "tracker1"
        empty_history = Ok h'
      ∧ download_history h' !! "tracker1" = Some ["t"].
Proof.
  split_and!; [by vm_compute | by vm_compute |].
  eexists. split; [reflexivity|]. by vm_compute.
Qed.



(** * Further properties *)

(** ** The retry loop and the outcomes of a search *)



(** X2. When the retry loop brings back no response, a response whose
    status is an error, or a body that is not JSON, the search returns the
    empty list and the history in memory is as before: the basename is not
    recorded. *)
Theorem search_without_usable_response ARGS http (d : release_data)
    (st st1 : state) (q : string) (u : search_url) (resp : option response) :
  Searcher._is_skip_worthy ARGS d (search_history st) = false →
  Searcher.search_query_of d = Ok q →
  Searcher._get_full_search_url ARGS q d = Ok u →
  Searcher.fetch ARGS http u d st = (Ok resp, st1) →
  match resp with
  | None => True
  | Some r => ok r = false ∨ resp_body r = NotJson
  end →
  Searcher.search ARGS http d st = (Ok [], st1)
  ∧ search_history st1 = search_history st.
Proof.
  intros Hskip Hq Hu Hfetch Hresp.
  pose proof (fetch_frame ARGS http u d st) as (Hh & _ & _).
  rewrite Hfetch in Hh. simpl in Hh. split; [|done].
  rewrite search_cases, Hskip, Hq, Hu, Hfetch. unfold after_fetch.
  destruct resp as [r|]; [|done].
  destruct Hresp as [-> | Hbody]; [done|].
  destruct (negb (ok r)); [done|]. by rewrite Hbody.
Qed.

(** X3. A search that ends with the key error of an absent title or
    type, with the exception of a request the loop does not catch, with the
    [ValueError] of the sleep before the retry, or with the exit of status
    1, has touched neither the history in memory nor the files: each of
    them is raised before the basename is recorded. *)
Theorem search_raise_cases ARGS http (d : release_data) (st st' : state)
    (e : exn) :
  Searcher.search ARGS http d st = (Raise e, st') →
  e = KeyError "title" ∨ e = KeyError "type" ∨ e = RequestError
  ∨ e = ValueError ∨ e = SystemExit 1 →
  search_history st' = search_history st
  ∧ files st' = files st.
Proof.
  intros Hsearch _. revert Hsearch. rewrite search_cases.
  destruct (Searcher._is_skip_worthy _ _ _) eqn:Hskip; [done|].
  destruct (not_skip_worthy_size _ _ _ Hskip) as [s Hs].
  destruct (Searcher.search_query_of d) as [q|e1];
    [|by intros [= <- <-]].
  destruct (Searcher._get_full_search_url ARGS q d) as [u|e1];
    [|by intros [= <- <-]].
  pose proof (fetch_frame ARGS http u d st) as (Hh & Hf & _).
  destruct (Searcher.fetch ARGS http u d st) as [[resp|e1] st1];
    simpl in Hh, Hf; [|by intros [= <- <-]].
  unfold after_fetch. destruct resp as [r|]; [|done].
  destruct (negb (ok r)); [done|].
  destruct (resp_body r) as [|[|ix ixs] results]; [done | |].
  - by intros [= <- <-].
  - unfold bindM. rewrite record_basename_spec. unfold lift.
    by rewrite (_get_matching_results_spec ARGS d s).
Qed.

(** X4. What a search returns is the empty list, or it is the trimmed
    entries of the ['Results'] of the response the retry loop brought back
    whose size is within the tolerance of the size of the release, in the
    order of the response.  So every candidate returned is the trimmed
    form of an entry of that response, the entry and its trimmed form are
    within the tolerance, and by then the basename of the release is in the
    history. *)
Theorem search_results_sound ARGS http (d : release_data) (st st' : state)
    (out : list candidate) (r : candidate) :
  Searcher.search ARGS http d st = (Ok out, st') →
  r ∈ out →
  ∃ s q u st1 resp ix ixs results r0,
    size d = Some s
    ∧ Searcher.search_query_of d = Ok q
    ∧ Searcher._get_full_search_url ARGS q d = Ok u
    ∧ Searcher.fetch ARGS http u d st = (Ok (Some resp), st1)
    ∧ ok resp = true
    ∧ resp_body resp = Json (ix :: ixs) results
    ∧ out = filter (within_tolerance (strict_size ARGS) s)
              (Searcher._trim_results results)
    ∧ r0 ∈ results
    ∧ r = Searcher._trim_result r0
    ∧ within_tolerance (strict_size ARGS) s r0
    ∧ within_tolerance (strict_size ARGS) s r
    ∧ basename d ∈ basenames_searched (search_history st').
Proof.
  rewrite search_cases.
  destruct (Searcher._is_skip_worthy _ _ _) eqn:Hskip.
  { intros [= <- <-] Hin. by apply elem_of_nil in Hin. }
  destruct (not_skip_worthy_size _ _ _ Hskip) as [s Hs].
  destruct (Searcher.search_query_of d) as [q|e1] eqn:Hq; [|done].
  destruct (Searcher._get_full_search_url ARGS q d) as [u|e1] eqn:Hu; [|done].
  destruct (Searcher.fetch ARGS http u d st) as [[resp|e1] st1] eqn:Hfetch;
    [|done].
  unfold after_fetch.
  destruct resp as [resp|].
  2:{ intros [= <- <-] Hin. by apply elem_of_nil in Hin. }
  destruct (ok resp) eqn:Hok; simpl.
  2:{ intros [= <- <-] Hin. by apply elem_of_nil in Hin. }
  destruct (resp_body resp) as [|[|ix ixs] results] eqn:Hbody; [| done |].
  { intros [= <- <-] Hin. by apply elem_of_nil in Hin. }
  unfold bindM. rewrite record_basename_spec. unfold lift.
  rewrite (_get_matching_results_spec ARGS d s) by done.
  intros [= <- <-] Hin.
  apply list_elem_of_filter in Hin as [Htol Hin].
  apply list_elem_of_fmap in Hin as (r0 & -> & Hin).
  exists s, q, u, st1, resp, ix, ixs, results, r0.
  split_and!; try done.
  simpl. destruct (decide (basename d ∈ _)); [done|].
  apply elem_of_app. right. by left.
Qed.

(** X5. Trimming does not change which results match: matching the
    trimmed results gives the trimmed matches of the raw results, and fails
    when the raw matching fails. *)
Theorem matching_commutes_with_trimming ARGS (d : release_data)
    (rs : list candidate) :
  Searcher._get_matching_results ARGS (Searcher._trim_results rs) d
  = match Searcher._get_matching_results ARGS rs d with
    | Ok out => Ok (Searcher._trim_results out)
    | Raise e => Raise e
    end.
Proof.
  destruct (size d) as [s|] eqn:Hs.
  - rewrite !(_get_matching_results_spec ARGS d s) by done.
    f_equal. unfold Searcher._trim_results.
    induction rs as [|r rs IH]; [done|]. simpl.
    rewrite !filter_cons.
    destruct (decide (within_tolerance _ s (Searcher._trim_result r)));
      destruct (decide (within_tolerance _ s r)); simpl;
      rewrite IH; try done; unfold within_tolerance in *; simpl in *; done.
  - unfold Searcher._get_matching_results.
    destruct rs as [|r rs]; simpl; [done|]. by rewrite Hs.
Qed.

(** X6. When a whole directory is parsed and the history is not ignored,
    a search that got a well-formed response makes the next search of the
    same release a skip: the empty list, no request, the state unchanged,
    whatever the network would answer. *)
Theorem search_again_is_skipped ARGS http (d : release_data)
    (st st1 : state) (q : string) (u : search_url) (r : response)
    (ix : string) (ixs : list string) (results : list candidate) :
  parse_dir ARGS = true →
  ignore_history ARGS = false →
  Searcher._is_skip_worthy ARGS d (search_history st) = false →
  Searcher.search_query_of d = Ok q →
  Searcher._get_full_search_url ARGS q d = Ok u →
  Searcher.fetch ARGS http u d st = (Ok (Some r), st1) →
  ok r = true →
  resp_body r = Json (ix :: ixs) results →
  ∀ http',
    Searcher.search ARGS http' d (Searcher.search ARGS http d st).2
    = (Ok [], (Searcher.search ARGS http d st).2).
Proof.
  intros Hpd Hih Hskip Hq Hu Hfetch Hok Hbody http'.
  destruct (not_skip_worthy_size _ _ _ Hskip) as [s Hs].
  rewrite (search_cases ARGS http d st), Hskip, Hq, Hu, Hfetch.
  rewrite (after_fetch_well_formed ARGS d r ix ixs results s) by done.
  apply search_skip. apply _is_skip_worthy_spec. left.
  split_and!; [|done..]. simpl.
  destruct (decide (basename d ∈ _)); [done|].
  apply elem_of_app. right. by left.
Qed.
(** ** What a download does *)

Lemma _validate_path_free (fs : list string) (file_path fp : string) :
  Downloader._validate_path fs file_path = Some fp → fp ∉ fs.
Proof.
  unfold Downloader._validate_path.
  pose proof (_validate_path_loop_spec fs file_path (S (length fs)) 0) as H.
  destruct (splitext file_path) as [filename ext].
  destruct H as (m & _ & Hloop & Hfree & _); [intros j; lia | lia |].
  change (tried file_path filename ext 0) with file_path in Hloop.
  rewrite Hloop. by intros [= <-].
Qed.

(** The download, case by case. *)
Lemma download_cases ARGS http (r : candidate) (st : state) :
  Downloader.download ARGS http r st
  = match Link r with
    | None => (Ok tt, st)
    | Some link =>
        match (if ignore_history ARGS then Ok false
               else HistoryManager.is_torrent_previously_grabbed r
                      (search_history st)) with
        | Raise e => (Raise e, st)
        | Ok true => (Ok tt, st)
        | Ok false =>
            match Downloader._validate_path (files st) (torrent_path ARGS r)
            with
            | None => (Raise Diverges, st)
            | Some fp =>
                match http (requests st) (DownloadReq link) with
                | Response _ =>
                    match HistoryManager.append_to_download_history
                            (Details r) (TrackerId r) (search_history st)
                    with
                    | Ok h' => (Ok tt, after_download link fp h' st)
                    | Raise e =>
                        (Raise e,
                         after_download link fp (search_history st) st)
                    end
                | _ =>
                    (Raise RequestError,
                     {| search_history := search_history st;
                        requests := requests st ++ [DownloadReq link];
                        files := files st;
                        history_file := history_file st |})
                end
            end
        end
    end.
Proof.
  unfold Downloader.download, torrent_path, after_download.
  destruct (Link r) as [link|]; [|done]. munfold.
  destruct (ignore_history ARGS).
  - destruct (Downloader._validate_path _ _) as [fp|] eqn:Hv; [|done].
    apply _validate_path_free in Hv.
    destruct (http (requests st) (DownloadReq link)); simpl; try done.
    assert (isfile (files st) fp = false) as ->.
    { destruct (isfile (files st) fp) eqn:Hf; [|done].
      by apply isfile_spec in Hf. }
    by destruct (HistoryManager.append_to_download_history _ _ _).
  - destruct (HistoryManager.is_torrent_previously_grabbed _ _) as [[]|e];
      [done | | done].
    destruct (Downloader._validate_path _ _) as [fp|] eqn:Hv; [|done].
    apply _validate_path_free in Hv.
    destruct (http (requests st) (DownloadReq link)); simpl; try done.
    assert (isfile (files st) fp = false) as ->.
    { destruct (isfile (files st) fp) eqn:Hf; [|done].
      by apply isfile_spec in Hf. }
    by destruct (HistoryManager.append_to_download_history _ _ _).
Qed.

Lemma download_skips ARGS http (r : candidate) (st : state) :
  Link r = None
  ∨ (ignore_history ARGS = false
     ∧ HistoryManager.is_torrent_previously_grabbed r (search_history st)
       = Ok true) →
  Downloader.download ARGS http r st = (Ok tt, st).
Proof.
  intros Hcase. rewrite download_cases.
  destruct (Link r) as [link|]; [|done].
  destruct Hcase as [? | [-> ->]]; done.
Qed.

(** X7. A download never writes the history file; either it leaves the
    state as it was, or it issues exactly one request, for the link of the
    candidate, and then writes at most one file, under a name that no
    existing file has. *)
Theorem download_effects ARGS http (r : candidate) (st : state) :
  let st' := (Downloader.download ARGS http r st).2 in
  history_file st' = history_file st
  ∧ (st' = st
     ∨ ∃ link,
         Link r = Some link
         ∧ requests st' = requests st ++ [DownloadReq link]
         ∧ (files st' = files st
            ∨ ∃ fp, (fp ∉ files st) ∧ files st' = files st ++ [fp])).
Proof.
  intros st'. subst st'. rewrite download_cases.
  destruct (Link r) as [link|]; [|by split; [|left]].
  destruct (if ignore_history ARGS then _ else _) as [[]|e];
    try (by split; [|left]).
  destruct (Downloader._validate_path _ _) as [fp|] eqn:Hv;
    [|by split; [|left]].
  apply _validate_path_free in Hv.
  destruct (http (requests st) (DownloadReq link));
    try (split; [done|]; right; exists link; split_and!; [done | done |];
         by left).
  destruct (HistoryManager.append_to_download_history _ _ _);
    (split; [done|]; right; exists link; split_and!; [done | done |];
     right; by exists fp).
Qed.



(** X9. With the history consulted, a download that succeeded makes any
    later download of the same candidate a no-op: no request, no file. *)
Theorem download_again_is_skipped ARGS http (r : candidate) (st st' : state)
    (link : string) :
  ignore_history ARGS = false →
  Link r = Some link →
  Downloader.download ARGS http r st = (Ok tt, st') →
  ∀ http', Downloader.download ARGS http' r st' = (Ok tt, st').
Proof.
  intros Hih Hlink Hdl http'. rewrite download_cases, Hlink, Hih in Hdl.
  destruct (HistoryManager.is_torrent_previously_grabbed r
              (search_history st)) as [[]|e] eqn:Hg; [| |done].
  { injection Hdl as <-. apply download_skips. by right. }
  destruct (Downloader._validate_path _ _) as [fp|]; [|done].
  destruct (http (requests st) (DownloadReq link)); try done.
  destruct (HistoryManager.append_to_download_history _ _ _) as [h'|e]
    eqn:Happ; [|done].
  injection Hdl as <-. apply download_skips. right. split; [done|]. simpl.
  unfold HistoryManager.is_torrent_previously_grabbed in Hg.
  destruct (url_path (Details r)) as [p|e] eqn:Hp; [|done].
  destruct (append_to_download_history_ok (Details r) (TrackerId r) p
              (search_history st) Hp) as (h1 & paths & Happ1 & _ & Hl & Hin).
  rewrite Happ in Happ1. injection Happ1 as <-.
  by apply (is_torrent_previously_grabbed_true r p h' paths).
Qed.

(** X10. When the request for the torrent fails, the download raises, no
    file is written and the history is not changed. *)
Theorem download_request_failure ARGS http (r : candidate) (st : state)
    (link : string) :
  Link r = Some link →
  (ignore_history ARGS = true
   ∨ HistoryManager.is_torrent_previously_grabbed r (search_history st)
     = Ok false) →
  (∀ resp, http (requests st) (DownloadReq link) ≠ Response resp) →
  let out := Downloader.download ARGS http r st in
  out.1 = Raise RequestError
  ∧ search_history out.2 = search_history st
  ∧ files out.2 = files st.
Proof.
  intros Hlink Hnot Hhttp out. subst out. rewrite download_cases, Hlink.
  assert ((if ignore_history ARGS then Ok false
           else HistoryManager.is_torrent_previously_grabbed r
                  (search_history st)) = Ok false) as ->.
  { destruct Hnot as [-> | Hg]; [done|]. by destruct (ignore_history ARGS). }
  destruct (_validate_path_total (files st) (torrent_path ARGS r))
    as [fp ->].
  destruct (http (requests st) (DownloadReq link)) as [| | |resp] eqn:Hh;
    try done.
  by destruct (Hhttp resp).
Qed.



(** ** The history only grows *)

Lemma history_le_refl (h : history) : history_le h h.
Proof. split; [done|]. intros tid paths H. by exists paths. Qed.

Lemma history_le_trans (h1 h2 h3 : history) :
  history_le h1 h2 → history_le h2 h3 → history_le h1 h3.
Proof.
  intros [Hb1 Hd1] [Hb2 Hd2]. split; [by etrans|].
  intros tid paths H. apply Hd1 in H as (p2 & H & Hp2).
  apply Hd2 in H as (p3 & H & Hp3). exists p3. split; [done | by etrans].
Qed.

Lemma append_to_download_history_le (url tid : string) (h h' : history) :
  HistoryManager.append_to_download_history url tid h = Ok h' →
  history_le h h'.
Proof.
  unfold HistoryManager.append_to_download_history.
  destruct (url_path url) as [p|e]; simpl; [|done]. intros [= <-].
  split; simpl; [done|]. intros t paths Ht.
  destruct (download_history h !! tid) as [ps|] eqn:Hl; simpl.
  - rewrite Hl. simpl. destruct (HistoryManager.str_in p ps).
    { by exists paths. }
    destruct (decide (t = tid)) as [->|Hne].
    + exists (ps ++ [p]). rewrite lookup_insert_eq.
      rewrite Hl in Ht. injection Ht as <-.
      split; [done | by apply prefix_app_r].
    + exists paths. by rewrite lookup_insert_ne.
  - rewrite lookup_insert_eq. simpl.
    destruct (decide (t = tid)) as [->|Hne]; [congruence|].
    exists paths. by rewrite !lookup_insert_ne.
Qed.

Lemma after_fetch_le ARGS (d : release_data) (resp : option response)
    (st : state) :
  history_le (search_history st)
    (search_history (after_fetch ARGS d resp st).2).
Proof.
  unfold after_fetch. destruct resp as [r|]; [|apply history_le_refl].
  destruct (negb (ok r)); [apply history_le_refl|].
  destruct (resp_body r) as [|[|ix ixs] results];
    try apply history_le_refl.
  unfold bindM. rewrite record_basename_spec. unfold lift.
  assert (history_le (search_history st)
            {| basenames_searched :=
                 if decide (basename d ∈ basenames_searched (search_history st))
                 then basenames_searched (search_history st)
                 else basenames_searched (search_history st) ++ [basename d];
               download_history := download_history (search_history st) |})
    as Hle.
  { split; simpl.
    - destruct (decide _); [done | by apply prefix_app_r].
    - intros tid paths H. by exists paths. }
  by destruct (Searcher._get_matching_results _ _ _).
Qed.

Lemma search_le ARGS http (d : release_data) (st : state) :
  history_le (search_history st)
    (search_history (Searcher.search ARGS http d st).2).
Proof.
  rewrite search_cases.
  destruct (Searcher._is_skip_worthy _ _ _); [apply history_le_refl|].
  destruct (Searcher.search_query_of d) as [q|e]; [|apply history_le_refl].
  destruct (Searcher._get_full_search_url ARGS q d) as [u|e];
    [|apply history_le_refl].
  pose proof (fetch_frame ARGS http u d st) as (Hh & _ & _).
  destruct (Searcher.fetch ARGS http u d st) as [[resp|e] st1]; simpl in Hh.
  - rewrite <- Hh. apply after_fetch_le.
  - simpl. rewrite Hh. apply history_le_refl.
Qed.

Lemma download_le ARGS http (r : candidate) (st : state) :
  history_le (search_history st)
    (search_history (Downloader.download ARGS http r st).2).
Proof.
  destruct (download_history_cases ARGS http r st) as (_ & [-> | Happ]).
  - apply history_le_refl.
  - by apply append_to_download_history_le in Happ.
Qed.

Lemma download_all_le_inv ARGS http (rs : list candidate) (st : state) :
  history_le (search_history st)
    (search_history (download_all ARGS http rs st).2)
  ∧ (ledger_inv (search_history st) →
     ledger_inv (search_history (download_all ARGS http rs st).2)).
Proof.
  revert st. induction rs as [|r rs IH]; intros st; simpl.
  { split; [apply history_le_refl | done]. }
  unfold bindM.
  pose proof (download_le ARGS http r st) as Hle.
  pose proof (download_inv ARGS http r st) as Hinv.
  destruct (Downloader.download ARGS http r st) as [[[]|e] st1];
    simpl in Hle, Hinv; [|done].
  destruct (IH st1) as [Hle1 Hinv1].
  split; [by eapply history_le_trans | by auto].
Qed.

Lemma iteration_le_inv ARGS http grd (path : string) (st : state) :
  history_le (search_history st)
    (search_history (iteration ARGS http grd path st).2)
  ∧ (ledger_inv (search_history st) →
     ledger_inv (search_history (iteration ARGS http grd path st).2)).
Proof.
  unfold iteration.
  destruct (title _); [|split; [apply history_le_refl | done]].
  unfold bindM.
  pose proof (search_le ARGS http (grd path) st) as Hle.
  pose proof (search_inv ARGS http (grd path) st) as Hinv.
  destruct (Searcher.search ARGS http (grd path) st) as [[rs|e] st1];
    simpl in Hle, Hinv; [|done].
  destruct (download_all_le_inv ARGS http rs st1) as [Hle1 Hinv1].
  split; [by eapply history_le_trans | by auto].
Qed.

Lemma main_loop_le_inv ARGS http grd (ps : list string)
    (st : state) :
  history_le (search_history st)
    (search_history (main_loop ARGS http grd ps st).2)
  ∧ (ledger_inv (search_history st) →
     ledger_inv (search_history (main_loop ARGS http grd ps st).2)).
Proof.
  revert st. induction ps as [|p ps IH]; intros st; simpl.
  { split; [apply history_le_refl | done]. }
  unfold bindM.
  destruct (iteration_le_inv ARGS http grd p st) as [Hle Hinv].
  destruct (iteration ARGS http grd p st) as [[[]|e] st1];
    simpl in Hle, Hinv; [|done].
  destruct (pause_cases ARGS grd p st1) as [-> | ->]; [|done].
  destruct (IH st1) as [Hle1 Hinv1].
  split; [by eapply history_le_trans | by auto].
Qed.

(** X13. Along the loop of the run the history in memory only grows
    (every list keeps its entries, in order, new ones at the end) and keeps
    the property of having no duplicates, also when the loop ends with an
    exception. *)
Theorem main_loop_history_grows ARGS http grd (ps : list string)
    (st : state) :
  history_le (search_history st)
    (search_history (main_loop ARGS http grd ps st).2)
  ∧ (ledger_inv (search_history st) →
     ledger_inv (search_history (main_loop ARGS http grd ps st).2)).
Proof. apply main_loop_le_inv. Qed.

(** ** The whole run *)

Lemma main_cases ARGS http grd (ps : list string) (a : result unit)
    (st : state) :
  main ARGS http grd ps a st
  = match a with
    | Raise e => (Raise e, st)
    | Ok _ =>
        match main_loop ARGS http grd ps (get_download_history st).2 with
        | (Ok _, st1) => dump_history st1
        | (Raise e, st1) => (Raise e, st1)
        end
    end.
Proof.
  unfold main, bindM, lift. destruct a as [[]|e]; [|done]. simpl.
  by destruct (main_loop _ _ _ _ _) as [[[]|e] st1].
Qed.

(** X14. A run that ends with an exception, whichever it is and wherever
    it is raised, leaves the history file as it was. *)
Theorem main_abort_keeps_history_file ARGS http grd (ps : list string)
    (a : result unit) (st st' : state) (e : exn) :
  main ARGS http grd ps a st = (Raise e, st') →
  history_file st' = history_file st.
Proof.
  rewrite main_cases. destruct a as [[]|e']; [|by intros [= _ <-]].
  pose proof (main_loop_history_file ARGS http grd ps
                (get_download_history st).2) as Hhf.
  destruct (main_loop _ _ _ _ _) as [[[]|e'] st1]; [done|].
  intros [= _ <-]. done.
Qed.

(** X15. A run that completes writes the history it has in memory; that
    history extends the one loaded from the file (the empty one when the
    file is absent or unreadable), and has no duplicates if the loaded one
    had none. *)
Theorem main_success_persists ARGS http grd (ps : list string)
    (a : result unit) (st st' : state) :
  main ARGS http grd ps a st = (Ok tt, st') →
  history_file st' = Some (search_history st')
  ∧ history_le (loaded_history st) (search_history st')
  ∧ (ledger_inv (loaded_history st) → ledger_inv (search_history st')).
Proof.
  rewrite main_cases. destruct a as [[]|e']; [|done].
  destruct (main_loop_le_inv ARGS http grd ps
              (get_download_history st).2) as [Hle Hinv].
  destruct (main_loop _ _ _ _ _) as [[[]|e'] st1]; [|done].
  intros [= <-]. simpl in *. done.
Qed.

(** X16. The script stops before loading the history and before any
    request, with an assertion error, when the input path does not exist,
    is not a directory while a directory is to be parsed, the save path is
    not a directory, or the aggregator url does not begin with [http]; when
    these hold but the aggregator does not answer, it exits with status 0.
    [assert_settings] returns exactly when all of them hold. *)
Theorem script_checks_settings ARGS http fs guessit head (st : state) :
  let paths_ok :=
    os_path_exists fs (input_path ARGS)
    && (if parse_dir ARGS then os_path_isdir fs (input_path ARGS) else true)
    && os_path_isdir fs (save_path ARGS)
    && String.prefix "http" (jackett_url ARGS) in
  let run := script ARGS http fs guessit head st in
  (paths_ok = false → run = (Raise AssertionError, st))
  ∧ (paths_ok = true → head (jackett_url ARGS) = false →
     run = (Raise (SystemExit 0), st) ∧ exit_status run.1 = 0%Z)
  ∧ (assert_settings ARGS fs head = Ok tt
     ↔ paths_ok = true ∧ head (jackett_url ARGS) = true).
Proof.
  intros paths_ok run. subst paths_ok run.
  unfold script. rewrite main_cases. unfold assert_settings, assert_.
  destruct (os_path_exists fs (input_path ARGS)); simpl;
    [|split_and!; [done | done | split; [done | by intros [? _]]]].
  destruct (parse_dir ARGS); simpl.
  - destruct (os_path_isdir fs (input_path ARGS)); simpl;
      [|split_and!; [done | done | split; [done | by intros [? _]]]].
    destruct (os_path_isdir fs (save_path ARGS)); simpl;
      [|split_and!; [done | done | split; [done | by intros [? _]]]].
    destruct (String.prefix "http" (jackett_url ARGS)); simpl;
      [|split_and!; [done | done | split; [done | by intros [? _]]]].
    destruct (head (jackett_url ARGS)); simpl;
      split_and!; try done; split; try done; by intros [_ ?].
  - destruct (os_path_isdir fs (save_path ARGS)); simpl;
      [|split_and!; [done | done | split; [done | by intros [? _]]]].
    destruct (String.prefix "http" (jackett_url ARGS)); simpl;
      [|split_and!; [done | done | split; [done | by intros [? _]]]].
    destruct (head (jackett_url ARGS)); simpl;
      split_and!; try done; split; try done; by intros [_ ?].
Qed.

(** X17. Paths for which no title was guessed are skipped: the loop does
    what it would do without them. *)
Theorem main_loop_skips_untitled ARGS http grd (ps : list string)
    (st : state) :
  main_loop ARGS http grd ps st
  = main_loop ARGS http grd
      (filter (λ p, title (guessed_data (grd p)) ≠ None) ps) st.
Proof.
  revert st. induction ps as [|p ps IH]; intros st; [done|].
  rewrite filter_cons.
  destruct (decide (title (guessed_data (grd p)) ≠ None)) as [Ht|Ht].
  - simpl. unfold bindM.
    destruct (iteration ARGS http grd p st) as [[[]|e] st1]; [|done].
    destruct (pause ARGS grd p st1) as [[[]|e] st2]; [apply IH|done].
  - simpl. unfold bindM, iteration, pause.
    destruct (title (guessed_data (grd p))); [by destruct Ht|].
    simpl. apply IH.
Qed.

Lemma main_loop_untitled_prefix ARGS http grd (ps1 ps2 : list string)
    (st : state) :
  Forall (λ q, title (guessed_data (grd q)) = None) ps1 →
  main_loop ARGS http grd (ps1 ++ ps2) st = main_loop ARGS http grd ps2 st.
Proof.
  intros Hall. induction Hall as [|q ps1 Hq Hall IH]; [done|].
  simpl. unfold bindM, iteration, pause. by rewrite Hq.
Qed.

(** X26. With a negative [--delay] the run ends at the sleep that follows
    the first release with a title whose search and downloads return:
    [time.sleep] raises [ValueError], the exit status is 1, no later release
    is looked at, and the history file is not written, so that what this
    release added to the history in memory is not kept. *)
Theorem main_negative_delay ARGS http grd (ps1 ps2 : list string)
    (p : string) (st st1 : state) :
  (delay ARGS < 0)%Z →
  Forall (λ q, title (guessed_data (grd q)) = None) ps1 →
  title (guessed_data (grd p)) ≠ None →
  iteration ARGS http grd p (get_download_history st).2 = (Ok tt, st1) →
  main ARGS http grd (ps1 ++ p :: ps2) (Ok tt) st = (Raise ValueError, st1)
  ∧ exit_status (main ARGS http grd (ps1 ++ p :: ps2) (Ok tt) st).1 = 1%Z
  ∧ history_file st1 = history_file st.
Proof.
  intros Hdelay Hall Htitle Hiter.
  assert (main_loop ARGS http grd (ps1 ++ p :: ps2)
            (get_download_history st).2
          = (Raise ValueError, st1)) as Hloop.
  { rewrite main_loop_untitled_prefix by done.
    cbn [main_loop]. unfold bindM. rewrite Hiter. unfold pause.
    destruct (title (guessed_data (grd p))); [|done].
    rewrite time_sleep_cases.
    by destruct (Z.ltb_spec (delay ARGS) 0); [|lia]. }
  destruct (main_abort _ _ _ _ _ _ _ Hloop) as [Hmain Hhf].
  rewrite Hmain. done.
Qed.

(** ** The size of a release *)

Lemma sum_sizes_app (l k : list Z) :
  sum_sizes (l ++ k) = (sum_sizes l + sum_sizes k)%Z.
Proof.
  unfold sum_sizes. induction l as [|x l IH]; simpl; [done|]. lia.
Qed.

Lemma _get_total_size_filenames_spec fs (root : string)
    (filenames : list string) (total : Z) :
  ReleaseData._get_total_size_filenames fs root filenames total
  = if forallb (size_known fs) (map (os_path_join fs root) filenames)
    then Some (total
               + sum_sizes (known_sizes fs
                              (map (os_path_join fs root) filenames)))%Z
    else None.
Proof.
  revert total. induction filenames as [|f fl IH]; intros total; simpl.
  - f_equal. unfold sum_sizes. simpl. lia.
  - unfold size_known at 1.
    destruct (ReleaseData._get_file_size fs (os_path_join fs root f))
      as [sz|] eqn:Hsz; simpl; [|done].
    rewrite IH. destruct (forallb _ _); [|done].
    f_equal. unfold sum_sizes. simpl. lia.
Qed.

Lemma _get_total_size_walk_spec fs
    (walk : list (string * list string * list string)) (total : Z) :
  ReleaseData._get_total_size_walk fs walk total
  = let files := concat (map (λ '(root, _, filenames),
                                map (os_path_join fs root) filenames) walk) in
    if forallb (size_known fs) files
    then Some (total + sum_sizes (known_sizes fs files))%Z
    else None.
Proof.
  revert total. induction walk as [|[[root dirs] filenames] walk IH];
    intros total; simpl.
  - f_equal. unfold sum_sizes. simpl. lia.
  - rewrite _get_total_size_filenames_spec, forallb_app.
    destruct (forallb _ (map (os_path_join fs root) filenames)); [|done].
    rewrite IH. simpl. destruct (forallb _ _); [|done].
    f_equal. unfold known_sizes. rewrite map_app, sum_sizes_app. lia.
Qed.

Lemma _get_total_size_directory_cases fs (path : string) :
  os_path_isfile fs path = false →
  os_path_isdir fs path = true →
  ReleaseData._get_total_size fs path
  = if forallb (size_known fs) (walked_files fs path)
    then Some (sum_sizes (known_sizes fs (walked_files fs path)))
    else None.
Proof.
  intros Hf Hd. unfold ReleaseData._get_total_size. rewrite Hf, Hd.
  rewrite _get_total_size_walk_spec. simpl. fold (walked_files fs path).
  by destruct (forallb _ _).
Qed.

(** X18. The size of a directory is the sum of the sizes of all the files
    [os.walk] yields, when the size of each is known; a single file of
    unknown size makes the whole size unknown. *)
Theorem _get_total_size_of_directory fs (path : string) :
  os_path_isfile fs path = false →
  os_path_isdir fs path = true →
  ReleaseData._get_total_size fs path
  = if forallb (size_known fs) (walked_files fs path)
    then Some (sum_sizes (known_sizes fs (walked_files fs path)))
    else None.
Proof. apply _get_total_size_directory_cases. Qed.


(** X20. On Windows a file is taken for a link exactly when bit 10 of its
    attributes (the reparse point flag, 0x400) is set. *)
Theorem _is_link_on_windows fs (file_path : string) :
  os_name_nt fs = true →
  ReleaseData._is_link fs file_path
  = Z.testbit (GetFileAttributes fs file_path) 10.
Proof.
  intros Hnt. unfold ReleaseData._is_link. rewrite Hnt.
  unfold ReleaseData.FILE_ATTRIBUTE_REPARSE_POINT.
  change 1024%Z with (2 ^ 10)%Z.
  destruct (Z.testbit (GetFileAttributes fs file_path) 10) eqn:Hb.
  - destruct (Z.eqb_spec (Z.land (GetFileAttributes fs file_path) (2 ^ 10)) 0)
      as [Heq|]; [|done].
    apply (f_equal (λ z, Z.testbit z 10%Z)) in Heq.
    rewrite Z.land_spec, Hb, Z.pow2_bits_true in Heq by lia. done.
  - destruct (Z.eqb_spec (Z.land (GetFileAttributes fs file_path) (2 ^ 10)) 0)
      as [|Hne]; [done|]. destruct Hne.
    apply Z.bits_inj'. intros n Hn.
    rewrite Z.land_spec, Z.bits_0.
    destruct (decide (n = 10%Z)) as [->|Hn10].
    + by rewrite Hb.
    + rewrite (Z.pow2_bits_false 10 n) by lia. apply andb_false_r.
Qed.

(** ** The lookup in the download history *)

(** X21. After a url path is appended under a tracker id, a candidate is
    found previously grabbed exactly when it was found before or has that
    tracker id and that url path. *)
Theorem append_then_lookup (url tid p q : string) (c : candidate)
    (h h' : history) (b : bool) :
  url_path url = Ok p →
  url_path (Details c) = Ok q →
  HistoryManager.append_to_download_history url tid h = Ok h' →
  HistoryManager.is_torrent_previously_grabbed c h = Ok b →
  HistoryManager.is_torrent_previously_grabbed c h'
  = Ok (b || (bool_decide (TrackerId c = tid) && bool_decide (q = p))).
Proof.
  intros Hp Hq Happ Hg.
  unfold HistoryManager.is_torrent_previously_grabbed in *.
  rewrite Hq in *. simpl in *.
  unfold HistoryManager.append_to_download_history in Happ.
  rewrite Hp in Happ. simpl in Happ. injection Happ as <-. simpl.
  destruct (decide (TrackerId c = tid)) as [Heq|Hne].
  - rewrite (bool_decide_eq_true_2 _ Heq). rewrite Heq in *. simpl.
    destruct (download_history h !! tid) as [paths|] eqn:Hl; simpl.
    + rewrite Hl. simpl. injection Hg as <-.
      destruct (HistoryManager.str_in p paths) eqn:Hin.
      * rewrite Hl. f_equal.
        destruct (decide (q = p)) as [->|Hqp].
        -- rewrite (bool_decide_eq_true_2 _ eq_refl).
           apply str_in_spec, grabbed_loop_spec in Hin. rewrite Hin. done.
        -- rewrite (bool_decide_eq_false_2 _ Hqp). by rewrite orb_false_r.
      * rewrite lookup_insert_eq. f_equal.
        destruct (HistoryManager.grabbed_loop q (paths ++ [p])) eqn:Hgl.
        -- apply grabbed_loop_spec, elem_of_app in Hgl as [Hgl|Hgl].
           ++ apply grabbed_loop_spec in Hgl. by rewrite Hgl.
           ++ apply list_elem_of_singleton in Hgl as ->.
              rewrite (bool_decide_eq_true_2 _ eq_refl). by rewrite orb_true_r.
        -- symmetry. apply orb_false_iff. split.
           ++ destruct (HistoryManager.grabbed_loop q paths) eqn:Hgl'; [|done].
              apply grabbed_loop_spec in Hgl'.
              assert (HistoryManager.grabbed_loop q (paths ++ [p]) = true)
                as Ht by (apply grabbed_loop_spec, elem_of_app; by left).
              congruence.
           ++ apply bool_decide_eq_false_2. intros ->.
              assert (HistoryManager.grabbed_loop p (paths ++ [p]) = true)
                as Ht.
              { apply grabbed_loop_spec, elem_of_app. right. by left. }
              congruence.
    + injection Hg as <-. rewrite lookup_insert_eq. simpl.
      rewrite lookup_insert_eq. f_equal. simpl.
      destruct (String.eqb_spec p q) as [->|Hpq].
      * by rewrite (bool_decide_eq_true_2 _ eq_refl).
      * rewrite bool_decide_eq_false_2; [done | congruence].
  - rewrite (bool_decide_eq_false_2 _ Hne). simpl. rewrite orb_false_r.
    assert (∀ dh : gmap string (list string),
              (if HistoryManager.str_in p (default [] (dh !! tid))
               then dh
               else <[tid := default [] (dh !! tid) ++ [p]]> dh)
              !! TrackerId c = dh !! TrackerId c) as Hother.
    { intros dh. destruct (HistoryManager.str_in _ _); [done|].
      by rewrite lookup_insert_ne. }
    rewrite Hother.
    destruct (download_history h !! tid); [done|].
    by rewrite lookup_insert_ne.
Qed.

(** ** The names of the torrent files *)

Lemma _sanitize_name_chars (s : string) :
  chars (Downloader._sanitize_name s)
  = filter (λ c, Downloader.kept c = true)
      (map dash_for_slash (chars s)).
Proof. unfold Downloader._sanitize_name. apply chars_of_list. Qed.

(** X22. Sanitizing a name replaces every [/] by [-] and then drops the
    characters that are not kept; the kept characters are the word
    characters of [\w] and [-_.()[] ] with the space, and [\w] is the one
    of a [str] pattern: it has the accented letters of Latin-1 ([é], code
    point 233) but not its signs ([×], 215).  So a sanitized name holds only
    kept characters and no [/]; a name of kept characters and slashes keeps
    its length; sanitizing is idempotent and leaves a name of kept
    characters unchanged. *)
Theorem _sanitize_name_result (release_name : string) :
  chars (Downloader._sanitize_name release_name)
  = filter (λ c, Downloader.kept c = true)
      (map dash_for_slash (chars release_name))
  ∧ Forall (λ c, Downloader.kept c = true)
      (chars (Downloader._sanitize_name release_name))
  ∧ ("/"%char ∉ chars (Downloader._sanitize_name release_name))
  ∧ (Forall (λ c, Downloader.kept c = true ∨ c = "/"%char)
       (chars release_name) →
     chars (Downloader._sanitize_name release_name)
     = map dash_for_slash (chars release_name))
  ∧ Downloader._sanitize_name (Downloader._sanitize_name release_name)
    = Downloader._sanitize_name release_name
  ∧ (Forall (λ c, Downloader.kept c = true) (chars release_name) →
     Downloader._sanitize_name release_name = release_name)
  ∧ (∀ c, Downloader.kept c = true
          ↔ Downloader.is_word c = true ∨ c ∈ chars "-_.()[] ")
  ∧ Downloader.is_word (Ascii.ascii_of_nat 233) = true
  ∧ Downloader.is_word (Ascii.ascii_of_nat 215) = false
  ∧ Downloader.kept ":" = false
  ∧ Downloader.kept backslash = false.
Proof.
  assert (∀ l, Forall (λ c, Downloader.kept c = true ∨ c = "/"%char) l →
               filter (λ c, Downloader.kept c = true)
                 (map dash_for_slash l) = map dash_for_slash l)
    as Hrepl.
  { intros l Hl. induction Hl as [|c l Hc Hl IH]; [done|]. simpl.
    rewrite filter_cons_True, IH; [done|].
    unfold dash_for_slash.
    destruct (Ascii.eqb_spec c "/") as [->|Hne]; [done|].
    by destruct Hc. }
  assert (∀ l, Forall (λ c, Downloader.kept c = true) l →
               filter (λ c, Downloader.kept c = true)
                 (map dash_for_slash l) = l)
    as Hid.
  { intros l Hl. rewrite Hrepl.
    - induction Hl as [|c l Hc Hl IH]; [done|]. simpl. rewrite IH.
      unfold dash_for_slash.
      by destruct (Ascii.eqb_spec c "/") as [->|_].
    - eapply Forall_impl; [exact Hl|]. intros c Hc. by left. }
  assert (Forall (λ c, Downloader.kept c = true)
            (chars (Downloader._sanitize_name release_name))) as Hkept.
  { rewrite _sanitize_name_chars. apply Forall_forall.
    by intros c [Hc _]%list_elem_of_filter. }
  split_and!.
  - apply _sanitize_name_chars.
  - done.
  - intros Hin. rewrite Forall_forall in Hkept. by apply Hkept in Hin.
  - intros Hall. rewrite _sanitize_name_chars. by apply Hrepl.
  - apply chars_inj. rewrite (_sanitize_name_chars (_ release_name)).
    by apply Hid.
  - intros Hall. apply chars_inj. rewrite _sanitize_name_chars.
    by apply Hid.
  - intros c. unfold Downloader.kept. rewrite orb_true_iff.
    split; (intros [Hw|Hp]; [by left | right]).
    + apply existsb_exists in Hp as (x & Hx & Heq).
      apply Ascii.eqb_eq in Heq as ->. by apply list_elem_of_In.
    + apply existsb_exists. exists c.
      split; [by apply list_elem_of_In | apply Ascii.eqb_refl].
  - by vm_compute.
  - by vm_compute.
  - by vm_compute.
  - by vm_compute.
Qed.

(** ** The base of the search url *)

Lemma lstrip_slash_app_slash (l : list ascii) :
  Searcher.lstrip_slash (l ++ ["/"%char])
  = match Searcher.lstrip_slash l with
    | [] => []
    | l' => l' ++ ["/"%char]
    end.
Proof.
  induction l as [|c l IH]; simpl; [done|].
  destruct (Ascii.eqb_spec c "/") as [->|Hne]; [done|]. done.
Qed.

Lemma lstrip_slash_head (l : list ascii) :
  match Searcher.lstrip_slash l with
  | c :: _ => c ≠ "/"%char
  | [] => True
  end.
Proof.
  induction l as [|c l IH]; simpl; [done|].
  by destruct (Ascii.eqb_spec c "/").
Qed.

Lemma lstrip_slash_id (l : list ascii) :
  match l with c :: _ => c ≠ "/"%char | [] => True end →
  Searcher.lstrip_slash l = l.
Proof.
  destruct l as [|c l]; [done|]. simpl.
  by destruct (Ascii.eqb_spec c "/").
Qed.

(** X23. [strip('/')] on the aggregator url: a slash added at either end
    changes nothing, stripping twice is stripping once, and the result
    neither begins nor ends with a slash. *)
Theorem strip_slash_ignores_outer_slashes (s : string) :
  Searcher.strip_slash (s +:+ "/") = Searcher.strip_slash s
  ∧ Searcher.strip_slash ("/" +:+ s) = Searcher.strip_slash s
  ∧ Searcher.strip_slash (Searcher.strip_slash s) = Searcher.strip_slash s
  ∧ (∀ t, Searcher.strip_slash s ≠ "/" +:+ t)
  ∧ (∀ t, Searcher.strip_slash s ≠ t +:+ "/").
Proof.
  unfold Searcher.strip_slash.
  assert (∀ l, match rev (Searcher.lstrip_slash (rev (Searcher.lstrip_slash l)))
               with c :: _ => c ≠ "/"%char | [] => True end) as Hhead.
  { intros l. pose proof (lstrip_slash_head l) as Hl.
    destruct (Searcher.lstrip_slash l) as [|c l'] eqn:El; [done|].
    pose proof (lstrip_slash_head (rev (c :: l'))) as Hr.
    destruct (Searcher.lstrip_slash (rev (c :: l'))) as [|e r] eqn:Er.
    - done.
    - assert (∃ k, rev (c :: l') = k ++ e :: r) as [k Hk].
      { clear -Er. revert Er. generalize (rev (c :: l')). intros l.
        induction l as [|x l IH]; simpl; [done|].
        destruct (Ascii.eqb_spec x "/") as [->|Hne].
        - intros H. destruct (IH H) as [k ->]. by exists ("/"%char :: k).
        - intros [= -> ->]. by exists []. }
      apply (f_equal (@rev ascii)) in Hk. rewrite rev_involutive in Hk.
      rewrite rev_app_distr in Hk. simpl in Hk. simpl.
      destruct (rev r) as [|x xs] eqn:Erev; simpl in *.
      + done.
      + injection Hk as <- _. done. }
  assert (∀ l, match Searcher.lstrip_slash (rev (Searcher.lstrip_slash l))
               with c :: _ => c ≠ "/"%char | [] => True end) as Hlast.
  { intros l. apply lstrip_slash_head. }
  split_and!.
  - f_equal. unfold chars. fold (chars (s +:+ "/")). rewrite chars_app.
    change (chars "/") with ["/"%char]. rewrite lstrip_slash_app_slash.
    fold (chars s).
    destruct (Searcher.lstrip_slash (chars s)) as [|c l]; [done|].
    rewrite rev_app_distr. simpl. done.
  - done.
  - f_equal. rewrite chars_of_list.
    rewrite (lstrip_slash_id
               (rev (Searcher.lstrip_slash
                       (rev (Searcher.lstrip_slash (chars s))))))
      by apply Hhead.
    rewrite rev_involutive.
    rewrite (lstrip_slash_id
               (Searcher.lstrip_slash (rev (Searcher.lstrip_slash (chars s)))))
      by apply Hlast.
    done.
  - intros t Ht. apply (f_equal chars) in Ht.
    rewrite chars_of_list in Ht. specialize (Hhead (chars s)).
    rewrite Ht in Hhead. simpl in Hhead. done.
  - intros t Ht. apply (f_equal chars) in Ht.
    rewrite chars_of_list, chars_app in Ht.
    apply (f_equal (@rev ascii)) in Ht. rewrite rev_involutive, rev_app_distr in Ht.
    simpl in Ht. specialize (Hlast (chars s)). rewrite Ht in Hlast. done.
Qed.

(** ** The canonical title *)

Lemma annot_app (u v : list ascii) :
  annot u → v = [] ∨ annot v → annot (u ++ v).
Proof.
  intros (x & y & ->) [-> | (x' & y' & ->)].
  - rewrite app_nil_r. by exists x, y.
  - exists x, (y ++ "]"%char :: " "%char :: "["%char :: x' ++ "/"%char :: y').
    simpl. rewrite <- !app_assoc. simpl. rewrite <- !app_assoc. done.
Qed.

(** X24. On a title without line feed the canonical title is a prefix of
    the title, not empty when the title is not, and canonicalizing it again
    changes nothing. *)
Theorem _reformat_release_name_idempotent (t : string) :
  (Re.LF ∉ chars t) →
  _reformat_release_name (_reformat_release_name t)
  = _reformat_release_name t
  ∧ (∃ rest, t = _reformat_release_name t +:+ rest)
  ∧ (t ≠ "" → _reformat_release_name t ≠ "").
Proof.
  intros Hlf. destruct (decide (chars t = [])) as [Hnil|Hne].
  { destruct t; [|done]. split_and!; [done | by exists "" | done]. }
  destruct (release_name_re_match (chars t) Hlf Hne)
    as (j & m & Hm & Hg & [Hj1 Hj2] & Hshape & Hmin).
  rewrite (_reformat_release_name_chars t j m Hm Hg).
  set (p := String.string_of_list_ascii (take j (chars t))).
  assert (chars p = take j (chars t)) as Hp by apply chars_of_list.
  split_and!.
  - assert (Re.LF ∉ chars p) as Hlfp.
    { rewrite Hp. intros Hin. apply Hlf.
      rewrite <- (take_drop j (chars t)). apply elem_of_app. by left. }
    assert (chars p ≠ []) as Hnep.
    { rewrite Hp. intros Hnil. apply (f_equal length) in Hnil.
      rewrite length_take in Hnil. simpl in Hnil. lia. }
    destruct (release_name_re_match (chars p) Hlfp Hnep)
      as (j' & m' & Hm' & Hg' & [Hj1' Hj2'] & Hshape' & _).
    rewrite (_reformat_release_name_chars p j' m' Hm' Hg').
    destruct Hshape' as [-> | Hannot'].
    { by rewrite firstn_all, of_chars. }
    exfalso. rewrite Hp, length_take in Hj2'.
    assert (j' < j) as Hlt.
    { destruct (decide (j' = j)) as [->|]; [|lia].
      rewrite Hp, drop_ge in Hannot' by (rewrite length_take; lia).
      destruct Hannot' as (x & y & Hxy). done. }
    apply (Hmin j'); [lia|].
    assert (drop j' (chars t) = drop j' (chars p) ++ drop j (chars t)) as ->.
    { rewrite Hp. rewrite <- (take_drop j (chars t)) at 1.
      rewrite drop_app_le; [done|]. rewrite length_take. lia. }
    apply annot_app; [done|].
    destruct Hshape as [-> | ?]; [left; by rewrite drop_all | by right].
  - exists (String.string_of_list_ascii (drop j (chars t))).
    apply chars_inj. rewrite chars_app, Hp, chars_of_list.
    by rewrite take_drop.
  - intros _ Hnil. apply (f_equal chars) in Hnil. rewrite Hp in Hnil.
    apply (f_equal length) in Hnil. rewrite length_take in Hnil.
    simpl in Hnil. lia.
Qed.

(** ** Where the torrent files go *)

Lemma rfind_from_absent (c : ascii) (l : list ascii) (i found : Z) :
  c ∉ l → rfind_from c l i found = found.
Proof.
  revert i found. induction l as [|x l IH]; intros i found Hc; simpl; [done|].
  destruct (Ascii.eqb_spec x c) as [->|Hne].
  - destruct Hc. by left.
  - apply IH. intros Hin. apply Hc. by right.
Qed.

Lemma rfind_from_app (c : ascii) (a b : list ascii) (i found : Z) :
  rfind_from c (a ++ b) i found
  = rfind_from c b (i + Z.of_nat (length a))%Z (rfind_from c a i found).
Proof.
  revert i found. induction a as [|x a IH]; intros i found; simpl.
  - by rewrite Z.add_0_r.
  - rewrite IH. f_equal. lia.
Qed.

Lemma rfind_from_bound (c : ascii) (l : list ascii) (i found : Z) :
  (found < i)%Z →
  (rfind_from c l i found < i + Z.of_nat (length l))%Z
  ∧ (found ≤ rfind_from c l i found)%Z.
Proof.
  revert i found. induction l as [|x l IH]; intros i found Hlt; simpl.
  - lia.
  - destruct (Ascii.eqb x c).
    + destruct (IH (i + 1)%Z i ltac:(lia)). lia.
    + destruct (IH (i + 1)%Z found ltac:(lia)). lia.
Qed.

Lemma rfind_outside (c : ascii) (dir rest : list ascii) :
  c ∉ rest →
  rfind c (dir ++ rest) = rfind c dir
  ∧ (-1 ≤ rfind c dir < Z.of_nat (length dir))%Z.
Proof.
  intros Hc. unfold rfind. rewrite rfind_from_app.
  destruct (rfind_from_bound c dir 0 (-1) ltac:(lia)) as [Hub Hlb].
  split; [by apply rfind_from_absent | lia].
Qed.

(** The sanitized name has neither separator, and it has a bracket. *)
Lemma torrent_name_chars (r : candidate) :
  ("/"%char ∉ chars (torrent_name r))
  ∧ (backslash ∉ chars (torrent_name r))
  ∧ "["%char ∈ chars (torrent_name r).
Proof.
  unfold torrent_name. split_and!.
  - rewrite _sanitize_name_chars. intros [Hk _]%list_elem_of_filter. done.
  - rewrite _sanitize_name_chars. intros [Hk _]%list_elem_of_filter. done.
  - rewrite _sanitize_name_chars, !chars_app, !map_app, !filter_app.
    apply elem_of_app. right. apply elem_of_app. left. simpl.
    rewrite filter_cons_True by done. right.
    rewrite filter_cons_True by done. by left.
Qed.

(** With [posixpath.join] the path of [Downloader.download] is the save
    path, a [/] unless it ends in one, the name and [.torrent]. *)
Lemma torrent_path_eq (ARGS : Args) (r : candidate) :
  torrent_path ARGS r
  = save_prefix ARGS +:+ torrent_name r +:+ ".torrent".
Proof.
  unfold torrent_path, save_prefix. fold (torrent_name r).
  destruct (torrent_name_chars r) as [Hslash _].
  unfold path_join. rewrite chars_app.
  destruct (chars (torrent_name r) ++ chars ".torrent") as [|c l] eqn:Hl.
  { by destruct (chars (torrent_name r)). }
  assert (c ≠ "/"%char) as Hc.
  { intros ->. destruct (chars (torrent_name r)) as [|c' l']; simpl in Hl.
    - done.
    - injection Hl as -> _. apply Hslash. by left. }
  destruct (Ascii.eqb_spec c "/") as [|_]; [done|].
  destruct (rev (chars (save_path ARGS))) as [|e ?]; [done|].
  destruct (Ascii.eqb e "/"); [done|].
  apply chars_inj. rewrite !chars_app. simpl. by rewrite <- !app_assoc.
Qed.

(** The split of [dir ++ name ++ ".torrent"] at any separator of [dir]. *)
Lemma splitext_from_torrent (dir : string) (r : candidate) (sep : Z) :
  (-1 ≤ sep < Z.of_nat (length (chars dir)))%Z →
  splitext_from sep (dir +:+ torrent_name r +:+ ".torrent")
  = (dir +:+ torrent_name r, ".torrent").
Proof.
  intros Hsep. unfold splitext_from.
  destruct (torrent_name_chars r) as (_ & _ & Hbr).
  set (d := chars dir) in *.
  set (name := chars (torrent_name r)).
  assert (chars (dir +:+ torrent_name r +:+ ".torrent")
          = d ++ name ++ "."%char :: chars "torrent") as Hl.
  { by rewrite !chars_app. }
  rewrite Hl.
  assert (rfind "." (d ++ name ++ "."%char :: chars "torrent")
          = Z.of_nat (length (d ++ name))) as Hdot.
  { unfold rfind. rewrite app_assoc, rfind_from_app.
    change (rfind_from "." ("."%char :: chars "torrent")
              (0 + Z.of_nat (length (d ++ name)))
              (rfind_from "." (d ++ name) 0 (-1)))
      with (rfind_from "." (chars "torrent")
              (0 + Z.of_nat (length (d ++ name)) + 1)
              (0 + Z.of_nat (length (d ++ name))))%Z.
    rewrite rfind_from_absent; [lia|].
    by apply (bool_decide_unpack _); vm_compute. }
  rewrite Hdot.
  assert ((sep <? Z.of_nat (length (d ++ name)))%Z = true) as ->.
  { apply Z.ltb_lt. rewrite length_app. lia. }
  rewrite Nat2Z.id.
  set (fi := Z.to_nat (sep + 1)).
  assert (fi ≤ length d) as Hfi by (unfold fi; lia).
  assert (existsb (λ c, negb (Ascii.eqb c "."))
            (firstn (length (d ++ name) - fi)
               (skipn fi (d ++ name ++ "."%char :: chars "torrent")))
          = true) as ->.
  { apply existsb_exists. exists "["%char. split; [|done].
    apply list_elem_of_In.
    rewrite app_assoc, drop_app_le by (rewrite length_app; lia).
    rewrite take_app_length' by (rewrite length_drop; lia).
    rewrite drop_app_le by done. apply elem_of_app. by right. }
  rewrite app_assoc, take_app_length, drop_app_length.
  f_equal. apply chars_inj. by rewrite chars_of_list, chars_app.
Qed.

Lemma torrent_tail_chars (r : candidate) (c : ascii) :
  c ∉ chars (torrent_name r) → c ∉ chars ".torrent" →
  c ∉ chars (torrent_name r) ++ chars ".torrent".
Proof. intros H1 H2 [?|?]%elem_of_app; done. Qed.

Lemma splitext_torrent (dir : string) (r : candidate) :
  splitext (dir +:+ torrent_name r +:+ ".torrent")
  = (dir +:+ torrent_name r, ".torrent")
  ∧ nt_splitext (dir +:+ torrent_name r +:+ ".torrent")
    = (dir +:+ torrent_name r, ".torrent").
Proof.
  destruct (torrent_name_chars r) as (Hslash & Hback & _).
  assert (chars (dir +:+ torrent_name r +:+ ".torrent")
          = chars dir ++ chars (torrent_name r) ++ chars ".torrent") as Hl.
  { by rewrite !chars_app. }
  destruct (rfind_outside "/" (chars dir)
              (chars (torrent_name r) ++ chars ".torrent")) as [Hs1 Hs2].
  { apply torrent_tail_chars; [done|].
    by apply (bool_decide_unpack _); vm_compute. }
  destruct (rfind_outside backslash (chars dir)
              (chars (torrent_name r) ++ chars ".torrent")) as [Hb1 Hb2].
  { apply torrent_tail_chars; [done|].
    by apply (bool_decide_unpack _); vm_compute. }
  split.
  - change (splitext_from
              (rfind "/" (chars (dir +:+ torrent_name r +:+ ".torrent")))
              (dir +:+ torrent_name r +:+ ".torrent")
            = (dir +:+ torrent_name r, ".torrent")).
    apply splitext_from_torrent. rewrite Hl, Hs1. lia.
  - unfold nt_splitext. apply splitext_from_torrent.
    rewrite Hl, Hs1, Hb1. lia.
Qed.

(** X25. The path [_validate_path] settles on for a candidate is the
    path it is given, the directory part followed by the sanitized
    ['{Title} [{Tracker}]'] and [.torrent], or that path with [ (n)]
    before [.torrent] for some [n] from 1 on, and no file has it.  This holds
    whatever the directory part [os.path.join] has put before the name, with
    [/] or with backslashes: the name has neither, so that
    [posixpath.splitext] and [ntpath.splitext] both split the path just
    before [.torrent]. *)
Theorem torrent_file_name (dir : string) (r : candidate)
    (fs : list string) (fp : string) :
  Downloader._validate_path fs (dir +:+ torrent_name r +:+ ".torrent")
  = Some fp →
  (fp = dir +:+ torrent_name r +:+ ".torrent"
   ∨ ∃ n, 1 ≤ n
          ∧ fp = (dir +:+ torrent_name r) +:+ " ("
                 +:+ str_nat n +:+ ")" +:+ ".torrent")
  ∧ (fp ∉ fs)
  ∧ splitext (dir +:+ torrent_name r +:+ ".torrent")
    = (dir +:+ torrent_name r, ".torrent")
  ∧ nt_splitext (dir +:+ torrent_name r +:+ ".torrent")
    = (dir +:+ torrent_name r, ".torrent").
Proof.
  intros Hfp. destruct (splitext_torrent dir r) as [Hposix Hnt].
  split_and!; [| by eapply _validate_path_free | done | done].
  revert Hfp. unfold Downloader._validate_path.
  pose proof (_validate_path_loop_spec fs
                (dir +:+ torrent_name r +:+ ".torrent")
                (S (length fs)) 0) as H.
  rewrite Hposix in *.
  destruct H as (m & _ & Hloop & _); [intros j; lia | lia |].
  change (tried (dir +:+ torrent_name r +:+ ".torrent") _ _ 0)
    with (dir +:+ torrent_name r +:+ ".torrent") in Hloop.
  rewrite Hloop. intros [= <-]. destruct m as [|m].
  - by left.
  - right. exists (S m). split; [lia | done].
Qed.

(** ** The further properties at concrete inputs *)

Lemma search_without_usable_response_witness :
  Searcher.search ARGS_default http_timeout movie_release fresh_state
  = (Ok [], (Searcher.search ARGS_default http_timeout movie_release
               fresh_state).2)
  ∧ length (requests (Searcher.search ARGS_default http_timeout
                        movie_release fresh_state).2) = 2
  ∧ (Searcher.search ARGS_default http_not_json movie_release
       fresh_state).1 = Ok [].
Proof.
  edestruct (search_without_usable_response ARGS_default http_timeout
               movie_release fresh_state) as [Hs _];
    [reflexivity | reflexivity | reflexivity | reflexivity | exact I |].
  edestruct (search_without_usable_response ARGS_default http_not_json
               movie_release fresh_state) as [Hs' _];
    [reflexivity | reflexivity | reflexivity | reflexivity
    | right; reflexivity |].
  rewrite Hs'. rewrite Hs. split_and!; reflexivity.
Defined.

Lemma search_raise_cases_witness :
  Searcher.search ARGS_default http_no_indexer movie_release fresh_state
  = (Raise (SystemExit 1),
     (Searcher.search ARGS_default http_no_indexer movie_release
        fresh_state).2)
  ∧ search_history
      (Searcher.search ARGS_default http_no_indexer movie_release
         fresh_state).2 = empty_history
  ∧ files
      (Searcher.search ARGS_default http_no_indexer movie_release
         fresh_state).2 = [].
Proof.
  split; [reflexivity|].
  eapply (search_raise_cases ARGS_default http_no_indexer movie_release
            fresh_state _ (SystemExit 1)).
  - reflexivity.
  - right. right. right. right. reflexivity.
Defined.

Lemma search_results_sound_witness :
  let st' := (Searcher.search ARGS_default http_one_result movie_release
                fresh_state).2 in
  ∃ s q u st1 resp ix ixs results r0,
    size movie_release = Some s
    ∧ Searcher.search_query_of movie_release = Ok q
    ∧ Searcher._get_full_search_url ARGS_default q movie_release = Ok u
    ∧ Searcher.fetch ARGS_default http_one_result u movie_release fresh_state
      = (Ok (Some resp), st1)
    ∧ ok resp = true
    ∧ resp_body resp = Json (ix :: ixs) results
    ∧ [mirror_candidate]
      = filter (within_tolerance (strict_size ARGS_default) s)
          (Searcher._trim_results results)
    ∧ r0 ∈ results
    ∧ mirror_candidate = Searcher._trim_result r0
    ∧ within_tolerance (strict_size ARGS_default) s r0
    ∧ within_tolerance (strict_size ARGS_default) s mirror_candidate
    ∧ basename movie_release ∈ basenames_searched (search_history st').
Proof.
  eapply (search_results_sound ARGS_default http_one_result movie_release
            fresh_state _ [mirror_candidate] mirror_candidate).
  - reflexivity.
  - by left.
Defined.

Lemma search_again_is_skipped_witness :
  Searcher.search ARGS_default http_one_result movie_release
    (Searcher.search ARGS_default http_one_result movie_release
       fresh_state).2
  = (Ok [], (Searcher.search ARGS_default http_one_result movie_release
               fresh_state).2).
Proof.
  eapply (search_again_is_skipped ARGS_default http_one_result
            movie_release fresh_state); reflexivity.
Defined.


Lemma download_again_is_skipped_witness :
  Downloader.download ARGS_default http_timeout mirror_candidate
    (Downloader.download ARGS_default http_one_result mirror_candidate
       fresh_state).2
  = (Ok tt,
     (Downloader.download ARGS_default http_one_result mirror_candidate
        fresh_state).2).
Proof.
  eapply (download_again_is_skipped ARGS_default http_one_result
            mirror_candidate fresh_state).
  - reflexivity.
  - reflexivity.
  - destruct (Downloader.download ARGS_default http_one_result
                mirror_candidate fresh_state) as [res st'] eqn:Hd.
    assert (res = Ok tt) as ->; [|reflexivity].
    change res with (res, st').1. rewrite <- Hd. by vm_compute.
Defined.

Lemma download_request_failure_witness :
  (Downloader.download ARGS_default http_timeout mirror_candidate
     fresh_state).1 = Raise RequestError
  ∧ search_history
      (Downloader.download ARGS_default http_timeout mirror_candidate
         fresh_state).2 = search_history fresh_state
  ∧ files
      (Downloader.download ARGS_default http_timeout mirror_candidate
         fresh_state).2 = files fresh_state.
Proof.
  eapply (download_request_failure ARGS_default http_timeout
            mirror_candidate fresh_state).
  - reflexivity.
  - right. by vm_compute.
  - intros resp. discriminate.
Defined.



Lemma main_abort_keeps_history_file_witness :
  let run :=
    main ARGS_default http_one_result (fun _ => other_release)
      ["/media/a"] (Ok tt)
      {| search_history := empty_history; requests := []; files := [];
         history_file := Some some_history |} in
  run.1 = Raise (KeyError "music")
  ∧ history_file run.2 = Some some_history.
Proof.
  intros run. split; [reflexivity|].
  eapply (main_abort_keeps_history_file ARGS_default http_one_result
            (fun _ => other_release) ["/media/a"] (Ok tt)
            {| search_history := empty_history; requests := []; files := [];
               history_file := Some some_history |} _ (KeyError "music")).
  reflexivity.
Defined.

Lemma main_success_persists_witness :
  let run :=
    main ARGS_default http_one_result (fun _ => movie_release)
      ["/media/a"] (Ok tt)
      {| search_history := empty_history; requests := []; files := [];
         history_file := Some some_history |} in
  history_file run.2 = Some (search_history run.2)
  ∧ history_le some_history (search_history run.2)
  ∧ ledger_inv (search_history run.2).
Proof.
  intros run.
  assert (run.1 = Ok tt) as Hres by (by vm_compute).
  destruct (main_success_persists ARGS_default http_one_result
              (fun _ => movie_release) ["/media/a"] (Ok tt)
              {| search_history := empty_history; requests := []; files := [];
                 history_file := Some some_history |} run.2)
    as (Hf & Hle & Hinv).
  { change (run = (Ok tt, run.2)). rewrite <- Hres. by destruct run. }
  split; [exact Hf|]. split; [exact Hle|].
  apply Hinv. exact some_history_inv.
Defined.

Lemma _get_total_size_of_directory_witness :
  ReleaseData._get_total_size fs_plain "/media/Rel" = Some 1400%Z
  ∧ ReleaseData._get_total_size fs_dangling "/media/Rel" = None.
Proof.
  rewrite !_get_total_size_of_directory by reflexivity.
  split; reflexivity.
Defined.


Lemma _is_link_on_windows_witness :
  ReleaseData._is_link fs_plain "C:\link" = true
  ∧ ReleaseData._is_link fs_plain "C:\file" = false.
Proof.
  rewrite !_is_link_on_windows by reflexivity. split; reflexivity.
Defined.

Lemma append_then_lookup_witness :
  ∃ h',
    HistoryManager.append_to_download_history
      "https://tracker1.example/details?id=55" "tracker1" empty_history
    = Ok h'
    ∧ HistoryManager.is_torrent_previously_grabbed mirror_candidate h'
      = Ok true
    ∧ HistoryManager.is_torrent_previously_grabbed far_candidate h'
      = Ok false.
Proof.
  destruct (append_to_download_history_ok
              "https://tracker1.example/details?id=55" "tracker1"
              "/details?id=55" empty_history) as (h' & _ & Happ & _);
    [by vm_compute|].
  exists h'. split; [exact Happ|]. split.
  - rewrite (append_then_lookup
               "https://tracker1.example/details?id=55" "tracker1"
               "/details?id=55" "/details?id=55" mirror_candidate
               empty_history h' false); [reflexivity | by vm_compute
               | by vm_compute | exact Happ | by vm_compute].
  - rewrite (append_then_lookup
               "https://tracker1.example/details?id=55" "tracker1"
               "/details?id=55" "/details?id=56" far_candidate
               empty_history h' false); [reflexivity | by vm_compute
               | by vm_compute | exact Happ | by vm_compute].
Defined.

Lemma _reformat_release_name_idempotent_witness :
  _reformat_release_name
    (_reformat_release_name "Movie [2010] [Golden Popcorn / 720p]")
  = _reformat_release_name "Movie [2010] [Golden Popcorn / 720p]".
Proof.
  apply _reformat_release_name_idempotent.
  by apply (bool_decide_unpack _); vm_compute.
Defined.

Lemma torrent_file_name_witness :
  ∃ fp,
    Downloader._validate_path
      ["/torrents/Movie.Name.2010.720p [Mirror].torrent"]
      ("/torrents/" +:+ torrent_name mirror_candidate +:+ ".torrent")
    = Some fp
    ∧ (fp = "/torrents/" +:+ torrent_name mirror_candidate +:+ ".torrent"
       ∨ ∃ n, 1 ≤ n
              ∧ fp = ("/torrents/" +:+ torrent_name mirror_candidate)
                     +:+ " (" +:+ str_nat n +:+ ")" +:+ ".torrent")
    ∧ (fp ∉ ["/torrents/Movie.Name.2010.720p [Mirror].torrent"])
    ∧ fp = "/torrents/Movie.Name.2010.720p [Mirror] (1).torrent".
Proof.
  destruct (_validate_path_total
              ["/torrents/Movie.Name.2010.720p [Mirror].torrent"]
              ("/torrents/" +:+ torrent_name mirror_candidate
               +:+ ".torrent")) as [fp Hfp].
  exists fp. split; [exact Hfp|].
  destruct (torrent_file_name "/torrents/" mirror_candidate _ fp Hfp)
    as (Hshape & Hfree & _).
  split; [exact Hshape|]. split; [exact Hfree|].
  assert (Some fp = Some "/torrents/Movie.Name.2010.720p [Mirror] (1).torrent")
    as Heq by (rewrite <- Hfp; by vm_compute).
  by injection Heq.
Defined.

Lemma main_negative_delay_witness :
  let st0 := {| search_history := empty_history; requests := [];
                files := []; history_file := Some some_history |} in
  let run :=
    main ARGS_negative_delay http_one_result (fun _ => movie_release)
      ["/media/a"; "/media/b"] (Ok tt) st0 in
  run.1 = Raise ValueError
  ∧ exit_status run.1 = 1%Z
  ∧ history_file run.2 = Some some_history
  ∧ length (requests run.2) = 1
  ∧ "Movie.Name.2010.720p" ∈ basenames_searched (search_history run.2).
Proof.
  intros st0 run.
  destruct (main_negative_delay ARGS_negative_delay http_one_result
              (fun _ => movie_release) [] ["/media/b"] "/media/a" st0
              run.2)
    as (Hmain & Hexit & Hhf);
    [reflexivity | constructor | discriminate | by vm_compute |].
  cbn [app] in Hmain, Hexit. fold run in Hmain, Hexit.
  rewrite Hmain.
  split_and!; [reflexivity | reflexivity | exact Hhf | by vm_compute
              | by apply (bool_decide_unpack _); vm_compute].
Defined.
